(** * Verification model of the LangGraph agents of lang-sandbox

    The development embeds:
    - the message data model of @langchain/core (roles, tool calls) and the
      merge of the [messages] channel ([messagesStateReducer], used by
      [MessagesAnnotation] in src/graph.ts and called as [addMessages] in
      src/functional.ts);
    - the arithmetic tools and the [toolNode], [llmCall] and
      [shouldContinue] functions of src/graph.ts, and the [agent] loop of
      src/functional.ts;
    - the graph executor (START/END, static and conditional edges, step
      bound), which the repository takes from @langchain/langgraph;
    - the routing functions of src/unnamed/part_000 and
      src/devin-mcp-graph.ts, and the fan-out node [enrichDataNode]. *)

From Stdlib Require Import QArith_base.
From stdpp Require Import base list strings gmap pretty.

Local Set Warnings "-register-all".

(* ================================================================= *)
(** ** Errors and the result monad (a thrown exception or a value) *)

Inductive Error :=
| StepLimitExceeded
| UnmappedLabel (label : string)
| UnknownNode (node : string)
| NoOutgoingEdge (node : string)
| ToolInputParsingException (tool : string)
| TypeError (what : string)
| ProviderError.

Inductive result (A : Type) :=
| Ok (a : A)
| Err (e : Error).
Arguments Ok {A} a.
Arguments Err {A} e.

Global Instance result_ret : MRet result := fun _ x => Ok x.
Global Instance result_bind : MBind result := fun _ _ f m =>
  match m with Ok x => f x | Err e => Err e end.

Definition is_ok {A} (r : result A) : bool :=
  match r with Ok _ => true | Err _ => false end.

(* ================================================================= *)
(** ** Messages (@langchain/core/messages) *)

(** JS values as they appear in tool-call arguments, tool outputs and
    state channels.  JS numbers are represented by rationals. *)
Inductive JVal :=
| JNum (q : Q)
| JStr (s : string)
| JBool (b : bool)
| JNull
| JUndefined
| JArr (items : list JVal).

(** A tool call parsed from a model response: [{id, name, args}]. *)
Record ToolCall := mkToolCall {
  tc_id : string;
  tc_name : string;
  tc_args : list (string * JVal)
}.

(** The tagged union over roles.  [id] is the optional message id; an
    ai-role message optionally carries [tool_calls]; a tool-role message
    carries the id of the call it answers. *)
Inductive Message :=
| SystemMessage (content : string) (id : option string)
| HumanMessage (content : string) (id : option string)
| AIMessage (content : string) (id : option string)
    (tool_calls : option (list ToolCall))
| ToolMessage (content : JVal) (id : option string)
    (tool_call_id : string) (name : string).

Definition msg_id (m : Message) : option string :=
  match m with
  | SystemMessage _ i | HumanMessage _ i | AIMessage _ i _
  | ToolMessage _ i _ _ => i
  end.

(** [message._getType()] *)
Inductive MsgType := TSystem | THuman | TAI | TTool.

Global Instance MsgType_eq_dec : EqDecision MsgType.
Proof. solve_decision. Defined.

Definition _getType (m : Message) : MsgType :=
  match m with
  | SystemMessage _ _ => TSystem
  | HumanMessage _ _ => THuman
  | AIMessage _ _ _ => TAI
  | ToolMessage _ _ _ _ => TTool
  end.

(* ================================================================= *)
(** ** The merge of the [messages] channel ([messagesStateReducer])

    The reducer of @langchain/langgraph: it walks the right-hand messages
    in order; a message whose id is already present in the merged list
    replaces that message in place (the index kept in [mergedById], the
    last one for that id), any other message is pushed at the end.
    Messages without an id receive a fresh uuid, so they never match: they
    are kept with [None] here.  The repository never builds a
    [RemoveMessage], so the removal branch of the reducer is not reached
    and is not modelled. *)

Fixpoint last_index_of_id (i : string) (l : list Message) (k : nat)
    (acc : option nat) : option nat :=
  match l with
  | [] => acc
  | m :: l' =>
      last_index_of_id i l' (S k)
        (if decide (msg_id m = Some i) then Some k else acc)
  end.

Definition merge_one (merged : list Message) (m : Message) : list Message :=
  match msg_id m with
  | None => merged ++ [m]
  | Some i =>
      match last_index_of_id i merged 0 None with
      | Some k => <[k := m]> merged
      | None => merged ++ [m]
      end
  end.

Definition addMessages (left right : list Message) : list Message :=
  foldl merge_one left right.

(** The ids carried by a list of messages. *)
Definition msg_ids (l : list Message) : list string :=
  omap msg_id l.

(** The messages of [r] carry pairwise distinct ids, none of them already
    used in [l] (messages without an id are always fresh). *)
Definition fresh_for (l r : list Message) : Prop :=
  NoDup (msg_ids r) /\ forall i, i ∈ msg_ids r -> i ∉ msg_ids l.

(* ================================================================= *)
(** ** Tools of src/graph.ts and src/functional.ts *)

(** The zod schema [z.object({a: z.number(), b: z.number()})]. *)
Definition parse_ab (args : list (string * JVal)) : option (Q * Q) :=
  match list_to_map (M := gmap string JVal) (reverse args) !! "a",
        list_to_map (M := gmap string JVal) (reverse args) !! "b" with
  | Some (JNum a), Some (JNum b) => Some (a, b)
  | _, _ => None
  end.

(** A structured tool: its name, the parser of its schema and its body. *)
Record Tool := mkTool {
  tool_name : string;
  tool_schema : list (string * JVal) -> option (Q * Q);
  tool_func : Q * Q -> Q
}.

Definition add : Tool := mkTool "add" parse_ab (fun '(a, b) => Qplus a b).
Definition multiply : Tool :=
  mkTool "multiply" parse_ab (fun '(a, b) => Qmult a b).
(** [a / b]; a zero divisor gives 0 here where JS gives an infinity or
    NaN. *)
Definition divide : Tool :=
  mkTool "divide" parse_ab (fun '(a, b) => Qdiv a b).

(** [tool.invoke(toolCall)]: the arguments are parsed against the schema
    first; a parse failure throws [ToolInputParsingException] before the
    body runs.  Otherwise the output is wrapped in a tool-role message
    tagged with the call id. *)
Definition tool_invoke (t : Tool) (tc : ToolCall) : result Message :=
  match tool_schema t (tc_args tc) with
  | None => Err (ToolInputParsingException (tool_name t))
  | Some args =>
      Ok (ToolMessage (JNum (tool_func t args)) None (tc_id tc) (tool_name t))
  end.

Definition toolsByName : list (string * Tool) :=
  [(tool_name add, add); (tool_name multiply, multiply);
   (tool_name divide, divide)].

(** [toolsByName[name].invoke(toolCall)]: an unregistered name gives
    [undefined] (or an [Object.prototype] member without [invoke]) and the
    call throws a [TypeError]. *)
Definition lookup_tool (name : string) : option Tool :=
  list_to_map (M := gmap string Tool) (reverse toolsByName) !! name.

(** The properties the object literal [toolsByName] inherits from
    [Object.prototype]. *)
Definition object_prototype_members : list string :=
  ["constructor"; "__defineGetter__"; "__defineSetter__"; "hasOwnProperty";
   "__lookupGetter__"; "__lookupSetter__"; "isPrototypeOf"; "propertyIsEnumerable";
   "toString"; "valueOf"; "__proto__"; "toLocaleString"].

(** [tool.invoke(toolCall)] on a name that is not registered: reading
    [invoke] of [undefined] throws, and an inherited member has no [invoke]
    to call. *)
Definition unregistered_error (name : string) : Error :=
  if decide (name ∈ object_prototype_members) then TypeError "tool.invoke is not a function"
  else TypeError "Cannot read properties of undefined (reading 'invoke')".

Definition invoke_by_name (tc : ToolCall) : result Message :=
  match lookup_tool (tc_name tc) with
  | None => Err (unregistered_error (tc_name tc))
  | Some t => tool_invoke t tc
  end.

(* ================================================================= *)
(** ** The nodes and the routing function of src/graph.ts *)

(** The [MessagesAnnotation] state, and a partial update of it. *)
Record MessagesState := mkMessagesState { messages : list Message }.

(** The merge the executor applies to a node's update. *)
Definition merge_messages (s u : MessagesState) : MessagesState :=
  mkMessagesState (addMessages (messages s) (messages u)).

Definition system_prompt : string :=
  "You are a helpful assistant tasked with performing arithmetic on a set of inputs.".

(** [aiMessage.tool_calls ?? []] *)
Definition tool_calls_of (m : Message) : list ToolCall :=
  match m with
  | AIMessage _ _ tcs => default [] tcs
  | _ => []
  end.

(** The [for ... of] loop of [toolNode]: each call in order; the first
    call that throws makes the whole node throw. *)
Fixpoint run_tool_calls (tcs : list ToolCall) : result (list Message) :=
  match tcs with
  | [] => mret []
  | tc :: rest =>
      observation ← invoke_by_name tc;
      result ← run_tool_calls rest;
      mret (observation :: result)
  end.

Definition toolNode (state : MessagesState) : result MessagesState :=
  match last (messages state) with
  | None => mret (mkMessagesState [])
  | Some lastMessage =>
      if decide (_getType lastMessage <> TAI) then mret (mkMessagesState [])
      else
        result ← run_tool_calls (tool_calls_of lastMessage);
        mret (mkMessagesState result)
  end.

Definition START : string := "__start__".
Definition END : string := "__end__".

Definition shouldContinue (state : MessagesState) : string :=
  match last (messages state) with
  | None => END
  | Some lastMessage =>
      if decide (_getType lastMessage <> TAI) then END
      else if decide (0 < length (tool_calls_of lastMessage)) then "toolNode"
      else END
  end.

(* ================================================================= *)
(** ** The graph executor

    [StateGraph(...).compile()] and [invoke] come from @langchain/langgraph,
    which is not part of the repository.  Modelled from the spec (section
    4.1): starting at the node reached by START's static edge, each step
    executes the current node on the state, merges its update, and resolves
    the next node (static edge, or routing function and label mapping);
    END stops the walk with the final state; a node failure stops it with
    that error; at most [bound] node executions are performed before the
    walk fails with [StepLimitExceeded].  The walk also returns the list of
    nodes executed, in order. *)

Fixpoint assoc {A} (k : string) (l : list (string * A)) : option A :=
  match l with
  | [] => None
  | (k', v) :: l' => if String.eqb k k' then Some v else assoc k l'
  end.

Section Executor.
Context {St Upd W : Type}.
Variable merge : St -> Upd -> St.
Variable empty : St.

Inductive Edge :=
| Static (dst : string)
| Conditional (route : St -> string) (mapping : list (string * string)).

Record Graph := mkGraph {
  g_nodes : list (string * (W -> St -> result (W * Upd)));
  g_edges : list (string * Edge)
}.

Definition next_node (g : Graph) (cur : string) (s : St) : result string :=
  match assoc cur (g_edges g) with
  | None => Err (NoOutgoingEdge cur)
  | Some (Static d) => Ok d
  | Some (Conditional route mapping) =>
      match assoc (route s) mapping with
      | Some d => Ok d
      | None => Err (UnmappedLabel (route s))
      end
  end.

Fixpoint walk (g : Graph) (fuel : nat) (cur : string) (w : W) (s : St)
    : list string * result (W * St) :=
  match fuel with
  | O => ([], Err StepLimitExceeded)
  | S fuel' =>
      match assoc cur (g_nodes g) with
      | None => ([], Err (UnknownNode cur))
      | Some f =>
          match f w s with
          | Err e => ([cur], Err e)
          | Ok (w', u) =>
              let s' := merge s u in
              match next_node g cur s' with
              | Err e => ([cur], Err e)
              | Ok nxt =>
                  if String.eqb nxt END then ([cur], Ok (w', s'))
                  else let '(log, r) := walk g fuel' nxt w' s' in
                       (cur :: log, r)
              end
          end
      end
  end.

Definition invoke (g : Graph) (bound : nat) (w : W) (input : Upd)
    : list string * result (W * St) :=
  match assoc START (g_edges g) with
  | Some (Static entry) => walk g bound entry w (merge empty input)
  | _ => ([], Err (NoOutgoingEdge START))
  end.
End Executor.

Arguments Graph : clear implicits.

(* ================================================================= *)
(** ** The agent of src/graph.ts and the agent of src/functional.ts

    The model provider is external: [modelWithTools_invoke w prompt]
    answers a prompt in a provider state [w]. *)

Section Agent.
Context {W : Type}.
Variable modelWithTools_invoke : W -> list Message -> result (W * Message).

Definition llmCall (w : W) (state : MessagesState)
    : result (W * MessagesState) :=
  '(w', response) ←
    modelWithTools_invoke w (SystemMessage system_prompt None :: messages state);
  mret (w', mkMessagesState [response]).

Definition toolNode_node (w : W) (state : MessagesState)
    : result (W * MessagesState) :=
  u ← toolNode state; mret (w, u).

Definition agent : Graph MessagesState MessagesState W :=
  mkGraph
    [("llmCall", llmCall); ("toolNode", toolNode_node)]
    [(START, Static "llmCall");
     ("llmCall", Conditional shouldContinue
                   [("toolNode", "toolNode"); (END, END)]);
     ("toolNode", Static "llmCall")].

Definition agent_invoke (bound : nat) (w : W) (input : MessagesState) :=
  invoke merge_messages (mkMessagesState []) agent bound w input.

(** src/functional.ts: [callLlm] and the [while (true)] loop of
    [agent].  The loop has no bound in the source; [fuel] only makes the
    Rocq function total, [None] meaning the fuel ran out. *)
Definition callLlm (w : W) (msgs : list Message) : result (W * Message) :=
  modelWithTools_invoke w (SystemMessage system_prompt None :: msgs).

Fixpoint functional_loop (fuel : nat) (w : W) (msgs : list Message)
    (modelResponse : Message) : option (result (W * list Message)) :=
  match fuel with
  | O => None
  | S fuel' =>
      if decide (length (tool_calls_of modelResponse) = 0)
      then Some (Ok (w, msgs))
      else
        match run_tool_calls (tool_calls_of modelResponse) with
        | Err e => Some (Err e)
        | Ok toolResults =>
            let msgs' := addMessages msgs (modelResponse :: toolResults) in
            match callLlm w msgs' with
            | Err e => Some (Err e)
            | Ok (w', r) => functional_loop fuel' w' msgs' r
            end
        end
  end.

Definition functional_agent (fuel : nat) (w : W) (msgs : list Message)
    : option (result (W * list Message)) :=
  match callLlm w msgs with
  | Err e => Some (Err e)
  | Ok (w', modelResponse) => functional_loop fuel w' msgs modelResponse
  end.
End Agent.

(** A stubbed model: it ignores the prompt and returns its queued
    responses in order. *)
Definition stub_model (queue : list Message) (_ : list Message)
    : result (list Message * Message) :=
  match queue with
  | [] => Err ProviderError
  | r :: queue' => Ok (queue', r)
  end.

(* ================================================================= *)
(** ** Routing functions of src/unnamed/part_000 and src/devin-mcp-graph.ts

    Each routing function returns its label together with the lines it
    writes through [trace] ([console.log]); a trace line is kept as the
    event it reports (the timestamp and indentation are left out). *)

Inductive TraceEvent :=
| TraceRoute (category : JVal)
| TraceErrorDetected (error : string)
| TraceQuestion (question : string)
| TraceNoQuestion.

(** The [GraphState] of src/unnamed/part_000; an unset channel is
    [undefined] ([JUndefined] or [None]). *)
Record ComplexState := mkComplexState {
  input : string;
  category : JVal;
  confidence : option Q;
  processed : option bool;
  path : option string;
  response : option string;
  enrichments : option (list (string * JVal));
  summary : option string;
  timestamp : option string
}.

Definition routeByCategory (state : ComplexState) : string * list TraceEvent :=
  let log := [TraceRoute (category state)] in
  match category state with
  | JStr "math" => ("processMath", log)
  | JStr "text" => ("processText", log)
  | JStr "data" => ("processData", log)
  | _ => ("enrichData", log)
  end.

(** The declared candidates of [addConditionalEdges("classifyInput", ...)]:
    in the array form every label is its own destination. *)
Definition routeByCategory_mapping : list (string * string) :=
  [("processMath", "processMath"); ("processText", "processText");
   ("processData", "processData"); ("enrichData", "enrichData")].

(** The [GraphState] of src/devin-mcp-graph.ts. *)
Record DevinState := mkDevinState {
  repoName : option string;
  userQuestion : option string;
  wikiStructure : JVal;
  wikiContents : option string;
  answer : option string;
  insights : option (option Q * option Q * option bool);
  devin_summary : option string;
  error : option string
}.

(** JS truthiness of an optional string. *)
Definition truthy (s : option string) : bool :=
  match s with
  | Some v => negb (String.eqb v "")
  | None => false
  end.

(** [String.prototype.trim] over the ASCII white space characters. *)
Definition is_ws (c : Ascii.ascii) : bool :=
  let n := Ascii.nat_of_ascii c in
  (n =? 32) || (n =? 9) || (n =? 10) || (n =? 11) || (n =? 12) || (n =? 13).

Fixpoint trim_start (s : string) : string :=
  match s with
  | EmptyString => EmptyString
  | String c s' => if is_ws c then trim_start s' else s
  end.

Fixpoint trim_end (s : string) : string :=
  match s with
  | EmptyString => EmptyString
  | String c s' =>
      let r := trim_end s' in
      if is_ws c && String.eqb r "" then EmptyString else String c r
  end.

Definition trim (s : string) : string := trim_end (trim_start s).

Definition checkError (state : DevinState) : string * list TraceEvent :=
  if truthy (error state) then
    ("end", [TraceErrorDetected (default "" (error state))])
  else ("continue", []).

Definition checkError_mapping : list (string * string) :=
  [("continue", "fetchWikiContents"); ("end", END)].

Definition shouldAnswerQuestion (state : DevinState)
    : string * list TraceEvent :=
  if truthy (error state) then ("skip", [])
  else if truthy (userQuestion state)
          && (0 <? String.length (trim (default "" (userQuestion state))))
  then ("answer", [TraceQuestion (default "" (userQuestion state))])
  else ("skip", [TraceNoQuestion]).

Definition shouldAnswerQuestion_mapping : list (string * string) :=
  [("answer", "answerQuestion"); ("skip", "generateSummary")].

(** The declared candidates of [addConditionalEdges("llmCall", ...)] in
    src/graph.ts. *)
Definition shouldContinue_mapping : list (string * string) :=
  [("toolNode", "toolNode"); (END, END)].

(* ================================================================= *)
(** ** The fan-out node [enrichDataNode] of src/unnamed/part_000 *)

(** [Promise.all]: the tasks complete in the order [schedule] (a list of
    task indices); each completion stores its value in its own slot; the
    promise resolves once every slot is filled, to the values in slot
    order ([None]: some task never completed, the promise stays pending). *)
Fixpoint fill_slots {A} (schedule : list nat) (values : list A)
    (slots : list (option A)) : list (option A) :=
  match schedule with
  | [] => slots
  | i :: rest => fill_slots rest values (<[i := values !! i]> slots)
  end.

Definition promise_all {A} (schedule : list nat) (values : list A)
    : option (list A) :=
  mapM id (fill_slots schedule values (replicate (length values) None)).

(** A JS object as its list of own properties in insertion order. *)
Definition Obj := list (string * JVal).

Fixpoint obj_get (o : Obj) (k : string) : option JVal :=
  match o with
  | [] => None
  | (k', v) :: o' => if String.eqb k k' then Some v else obj_get o' k
  end.

(** [target[k] = v]: an existing property keeps its position. *)
Fixpoint obj_set (o : Obj) (k : string) (v : JVal) : Obj :=
  match o with
  | [] => [(k, v)]
  | (k', v') :: o' =>
      if String.eqb k k' then (k', v) :: o' else (k', v') :: obj_set o' k v
  end.

(** [Object.assign({}, ...sources)], sources copied left to right. *)
Definition object_assign (sources : list Obj) : Obj :=
  foldl (fun target src => foldl (fun t '(k, v) => obj_set t k v) target src)
    [] sources.

(** The three sub-tasks, in declaration order; [random] is the value of
    [Math.random()] drawn by the first one. *)
Definition enrich_tasks (state : ComplexState) (random : Q) : list Obj :=
  [ [("sentiment", JStr (if Qlt_le_dec (1#2) random then "positive"
                         else "neutral"))];
    [("complexity", JStr (if 20 <? String.length (input state) then "high"
                          else "low"))];
    [("tags", JArr [JStr "processed"; category state; JStr "v1"])] ].

(** The [enrichments] value of the node's update. *)
Definition enrichDataNode (state : ComplexState) (random : Q)
    (schedule : list nat) : option Obj :=
  enrichments ← promise_all schedule (enrich_tasks state random);
  Some (object_assign enrichments).

(* ================================================================= *)
(** ** [classifyInputNode] of src/unnamed/part_000

    The node asks the model for a JSON object and reads it with
    [JSON.parse(content)] inside a [try]; [parsed] is the outcome of that
    parse: [None] when it throws (a non-string content is parsed as [""],
    which throws too), otherwise the parsed value.  Object-valued
    properties are not represented. *)

Inductive Parsed :=
| PObject (o : list (string * JVal))
| PNull
| PValue (v : JVal).

(** JS truthiness of a value. *)
Definition js_truthy (v : JVal) : bool :=
  match v with
  | JNum q => negb (Qeq_bool q 0)
  | JStr s => negb (String.eqb s "")
  | JBool b => b
  | JNull | JUndefined => false
  | JArr _ => true
  end.

(** [a || b] *)
Definition js_or (a b : JVal) : JVal := if js_truthy a then a else b.

(** The update [{category, confidence}]: the defaults are ["unknown"] and
    [0.5]; reading a property of [null] throws a [TypeError], which the
    [catch] swallows, keeping both defaults; a number, string, boolean or
    array has neither property, so both reads give [undefined]. *)
Definition classifyInputNode_update (parsed : option Parsed) : JVal * JVal :=
  match parsed with
  | Some (PObject o) =>
      (js_or (default JUndefined (obj_get o "category")) (JStr "unknown"),
       js_or (default JUndefined (obj_get o "confidence")) (JNum (1#2)))
  | Some (PValue _) => (js_or JUndefined (JStr "unknown"), js_or JUndefined (JNum (1#2)))
  | Some PNull | None => (JStr "unknown", JNum (1#2))
  end.

(* ================================================================= *)
(** ** The tools [analyzeData] and [processText] of src/unnamed/part_000 *)

(** A JS number as the tools compute it: finite, [NaN] or an infinity. *)
Inductive JSNumber := Fin (q : Q) | NaN | PosInf | NegInf.

(** [JSON.stringify] writes a non-finite number as [null]. *)
Definition json_number (x : JSNumber) : JVal :=
  match x with Fin q => JNum q | _ => JNull end.

Definition qmax (a b : Q) : Q := if Qle_bool a b then b else a.
Definition qmin (a b : Q) : Q := if Qle_bool a b then a else b.

(** [Math.max(...data)] and [Math.min(...data)]: [-Infinity] and
    [Infinity] without arguments. *)
Definition js_max (data : list Q) : JSNumber :=
  match data with [] => NegInf | x :: xs => Fin (fold_left qmax xs x) end.
Definition js_min (data : list Q) : JSNumber :=
  match data with [] => PosInf | x :: xs => Fin (fold_left qmin xs x) end.

Definition js_length (data : list Q) : Q := inject_Z (Z.of_nat (length data)).

(** The body of [analyzeData]: [sum] by [reduce] from 0, [avg = sum /
    data.length] ([0 / 0] is [NaN]), and the object that the returned
    [JSON.stringify] text encodes. *)
Definition analyzeData (data : list Q) : Obj :=
  let sum := fold_left Qplus data 0%Q in
  let avg := if decide (length data = 0) then NaN else Fin (sum / js_length data) in
  [("sum", json_number (Fin sum)); ("avg", json_number avg);
   ("max", json_number (js_max data)); ("min", json_number (js_min data));
   ("count", JNum (js_length data))].

(** The schema [z.object({data: z.array(z.number())})]. *)
Definition parse_data (args : list (string * JVal)) : option (list Q) :=
  match list_to_map (M := gmap string JVal) (reverse args) !! "data" with
  | Some (JArr items) =>
      mapM (fun v => match v with JNum q => Some q | _ => None end) items
  | _ => None
  end.

Definition analyzeData_invoke (tc : ToolCall) : result Obj :=
  match parse_data (tc_args tc) with
  | None => Err (ToolInputParsingException "analyzeData")
  | Some data => Ok (analyzeData data)
  end.

(** The enum [["uppercase", "lowercase", "reverse", "length"]]. *)
Inductive TextOperation := Uppercase | Lowercase | Reverse | Length.

(** The schema [z.object({text: z.string(), operation: z.enum(...)})]. *)
Definition parse_text_op (args : list (string * JVal)) : option (string * TextOperation) :=
  match list_to_map (M := gmap string JVal) (reverse args) !! "text",
        list_to_map (M := gmap string JVal) (reverse args) !! "operation" with
  | Some (JStr text), Some (JStr "uppercase") => Some (text, Uppercase)
  | Some (JStr text), Some (JStr "lowercase") => Some (text, Lowercase)
  | Some (JStr text), Some (JStr "reverse") => Some (text, Reverse)
  | Some (JStr text), Some (JStr "length") => Some (text, Length)
  | _, _ => None
  end.

(** [toUpperCase] and [toLowerCase] on ASCII letters. *)
Definition ascii_upper (c : Ascii.ascii) : Ascii.ascii :=
  let n := Ascii.nat_of_ascii c in
  if (97 <=? n) && (n <=? 122) then Ascii.ascii_of_nat (n - 32) else c.
Definition ascii_lower (c : Ascii.ascii) : Ascii.ascii :=
  let n := Ascii.nat_of_ascii c in
  if (65 <=? n) && (n <=? 90) then Ascii.ascii_of_nat (n + 32) else c.

Fixpoint string_map (f : Ascii.ascii -> Ascii.ascii) (s : string) : string :=
  match s with
  | EmptyString => EmptyString
  | String c s' => String (f c) (string_map f s')
  end.

(** [text.split("").reverse().join("")] *)
Fixpoint string_reverse (s : string) : string :=
  match s with
  | EmptyString => EmptyString
  | String c s' => string_reverse s' +:+ String c EmptyString
  end.

(** The body of [processText]; its [default] branch is unreachable, the
    schema admitting only the four operations. *)
Definition processText (text : string) (operation : TextOperation) : string :=
  match operation with
  | Uppercase => string_map ascii_upper text
  | Lowercase => string_map ascii_lower text
  | Reverse => string_reverse text
  | Length => "Length: " +:+ pretty (N.of_nat (String.length text))
  end.

Definition processText_invoke (tc : ToolCall) : result string :=
  match parse_text_op (tc_args tc) with
  | None => Err (ToolInputParsingException "processText")
  | Some (text, operation) => Ok (processText text operation)
  end.

(* ================================================================= *)
(** ** The processing nodes of src/unnamed/part_000

    [processMathNode], [processTextNode] and [processDataNode] ask the
    model for tool calls and run each of them.  [invoke_tool] is
    [toolsByName[toolCall.name].invoke(toolCall)] followed by
    [String(result.content)]; the registry holds [calculate], which
    evaluates its argument with [Function(...)], so it is kept abstract. *)

Section ProcessNodes.
Context {W : Type}.
Variable modelWithTools_invoke : W -> list Message -> result (W * Message).
Variable invoke_tool : ToolCall -> result string.

(** The [for ... of] loop: [responseText] is overwritten by each call's
    output; a call that throws makes the node throw. *)
Fixpoint tool_loop (responseText : string) (tcs : list ToolCall) : result string :=
  match tcs with
  | [] => mret responseText
  | toolCall :: rest => out ← invoke_tool toolCall; tool_loop out rest
  end.

(** The update [{processed: true, path, response}]. *)
Record ProcessUpdate := mkProcessUpdate {
  pu_processed : bool;
  pu_path : string;
  pu_response : string
}.

Definition process_node (system : string) (path : string) (w : W) (state : ComplexState)
    : result (W * ProcessUpdate) :=
  '(w', response) ←
    modelWithTools_invoke w [SystemMessage system None; HumanMessage (input state) None];
  responseText ←
    (if decide (0 < length (tool_calls_of response))
     then tool_loop "" (tool_calls_of response) else mret "");
  mret (w', mkProcessUpdate true path responseText).

Definition processMathNode :=
  process_node "あなたは数学の専門家です。calculateツールを使って問題を解いてください。" "math".
Definition processTextNode :=
  process_node "あなたはテキスト処理の専門家です。processTextツールを使ってテキストを操作してください。" "text".
Definition processDataNode :=
  process_node "あなたはデータアナリストです。入力から数値を抽出してanalyzeDataツールを使って分析してください。" "data".
End ProcessNodes.

(* ================================================================= *)
(** ** [parseTopicList] of src/devin-mcp-graph.ts

    Strings are ASCII here, as for [trim]: [\s] is [is_ws], [\d] the
    digits, and the line terminators that [.] does not match are LF and
    CR. *)

(** [text.split('\n')] *)
Fixpoint split_lines (s : string) : list string :=
  match s with
  | EmptyString => [EmptyString]
  | String c s' =>
      let rest := split_lines s' in
      if Ascii.nat_of_ascii c =? 10 then EmptyString :: rest
      else match rest with
           | [] => [String c EmptyString]
           | l :: ls => String c l :: ls
           end
  end.

(** The longest prefix of characters satisfying [p], and the rest. *)
Fixpoint span (p : Ascii.ascii -> bool) (s : string) : string * string :=
  match s with
  | EmptyString => (EmptyString, EmptyString)
  | String c s' =>
      if p c then let '(a, b) := span p s' in (String c a, b)
      else (EmptyString, s)
  end.

Definition is_digit_or_dot (c : Ascii.ascii) : bool :=
  let n := Ascii.nat_of_ascii c in ((48 <=? n) && (n <=? 57)) || (n =? 46).

Definition is_line_terminator (c : Ascii.ascii) : bool :=
  let n := Ascii.nat_of_ascii c in (n =? 10) || (n =? 13).

Fixpoint all_chars (p : Ascii.ascii -> bool) (s : string) : bool :=
  match s with
  | EmptyString => true
  | String c s' => p c && all_chars p s'
  end.

(** [(.+)$] on the rest of the line. *)
Definition dot_plus_to_end (g : string) : bool :=
  (0 <? String.length g) && all_chars (fun c => negb (is_line_terminator c)) g.

(** The greedy [\s+] before the group first takes [n] characters of the
    white-space run [ws], then gives back one at a time until [(.+)$]
    matches what follows. *)
Fixpoint backtrack_ws (n : nat) (ws rest : string) : option string :=
  match n with
  | 0 => None
  | S n' =>
      let g := String.substring n (String.length ws - n) ws +:+ rest in
      if dot_plus_to_end g then Some g else backtrack_ws n' ws rest
  end.

(** [line.match(/^\s*-\s+[\d.]+\s+(.+)$/)], as the group [match[1]].  The
    classes of consecutive parts are disjoint, so [\s*], the first [\s+]
    and [[\d.]+] can only take their longest run; the last [\s+] alone
    backtracks. *)
Definition topic_match (line : string) : option string :=
  let '(_, s1) := span is_ws line in
  match s1 with
  | String c s2 =>
      if Ascii.nat_of_ascii c =? 45 then
        let '(w1, s3) := span is_ws s2 in
        let '(d, s4) := span is_digit_or_dot s3 in
        let '(w2, rest) := span is_ws s4 in
        if (0 <? String.length w1) && (0 <? String.length d)
        then backtrack_ws (String.length w2) w2 rest else None
      else None
  | EmptyString => None
  end.

Definition parseTopicList (text : string) : list string :=
  omap (fun line => trim <$> topic_match line) (split_lines text).

(* ================================================================= *)
(** ** The graph of src/devin-mcp-graph.ts *)

(** An item of an MCP tool result's [content]: one with a [text] field,
    or another object. *)
Inductive McpContent := McpText (text : string) | McpItem.

(** A defined value of the [wikiStructure] channel: [{raw, topics}], a
    content item without [text], the empty [content] array, or [null]. *)
Inductive WikiStructure :=
| WSTopics (raw : string) (topics : list string)
| WSItem
| WSEmpty
| WSNull.

(** The [GraphState] of the graph; [None] is an unset channel.  A node's
    update has the same shape, [None] marking a key it does not return. *)
Record DocState := mkDocState {
  ds_repoName : option string;
  ds_userQuestion : option string;
  ds_wikiStructure : option WikiStructure;
  ds_wikiContents : option string;
  ds_answer : option string;
  ds_insights : option (nat * nat * bool);
  ds_summary : option string;
  ds_error : option string
}.

(** Every channel is a plain [Annotation<T>]: a returned key replaces the
    value. *)
Definition last_value {A} (u s : option A) : option A :=
  match u with Some v => Some v | None => s end.

Definition merge_doc (s u : DocState) : DocState :=
  mkDocState (last_value (ds_repoName u) (ds_repoName s))
    (last_value (ds_userQuestion u) (ds_userQuestion s))
    (last_value (ds_wikiStructure u) (ds_wikiStructure s))
    (last_value (ds_wikiContents u) (ds_wikiContents s))
    (last_value (ds_answer u) (ds_answer s))
    (last_value (ds_insights u) (ds_insights s))
    (last_value (ds_summary u) (ds_summary s))
    (last_value (ds_error u) (ds_error s)).

Definition empty_doc : DocState :=
  mkDocState None None None None None None None None.

(** The channels the routing functions [checkError] and
    [shouldAnswerQuestion] are applied to; they read [error] and
    [userQuestion] only. *)
Definition route_view (s : DocState) : DevinState :=
  mkDevinState (ds_repoName s) (ds_userQuestion s) JUndefined (ds_wikiContents s)
    (ds_answer s)
    ((fun '(t, d, h) => (Some (inject_Z (Z.of_nat t)), Some (inject_Z (Z.of_nat d)), Some h))
       <$> ds_insights s)
    (ds_summary s) (ds_error s).

(** [String(content)] of an item without text, of [[]] and of
    [undefined]. *)
Definition content_text (c : option (list McpContent)) : string :=
  match c with
  | Some (McpText text :: _) => text
  | Some (McpItem :: _) => "[object Object]"
  | Some [] => ""
  | None => "undefined"
  end.

(** The message of the [TypeError] thrown by [wikiStructure.topics] when
    [readWikiStructure] returned [undefined]. *)
Definition topics_of_undefined : string :=
  "Cannot read properties of undefined (reading 'topics')".

Definition summary_error_prefix : string := "要約生成中にエラーが発生しました: ".

Section DocGraph.
Context {W : Type}.
(** [client.callTool(name, args)], including the connection of
    [initMCPClient]: [inl errorMsg] when it throws, [errorMsg] being what
    the nodes' [catch] computes; [inr] the result's [content] ([None] when
    absent). *)
Variable callTool : W -> string -> list (string * option string) ->
                    W * (string + option (list McpContent)).
(** [model.invoke(messages)] of [generateSummaryNode], the messages being
    built from the state: [inr] is [String(response.content)]. *)
Variable summary_model : W -> DocState -> W * (string + string).

Definition readWikiStructure (w : W) (repoName : option string)
    : W * (string + option WikiStructure) :=
  let '(w', r) := callTool w "read_wiki_structure" [("repoName", repoName)] in
  (w', match r with
       | inl errorMsg => inl errorMsg
       | inr (Some (McpText text :: _)) => inr (Some (WSTopics text (parseTopicList text)))
       | inr (Some (McpItem :: _)) => inr (Some WSItem)
       | inr (Some []) => inr (Some WSEmpty)
       | inr None => inr None
       end).

Definition readWikiContents (w : W) (repoName : option string) : W * (string + string) :=
  let '(w', r) := callTool w "read_wiki_contents" [("repoName", repoName)] in
  (w', match r with inl errorMsg => inl errorMsg | inr c => inr (content_text c) end).

Definition askQuestion (w : W) (repoName question : option string) : W * (string + string) :=
  let '(w', r) := callTool w "ask_question" [("repoName", repoName); ("question", question)] in
  (w', match r with inl errorMsg => inl errorMsg | inr c => inr (content_text c) end).

(** [wikiStructure.topics?.length] runs inside the [try]: on [undefined]
    it throws. *)
Definition fetchWikiStructureNode (w : W) (state : DocState) : result (W * DocState) :=
  let '(w', r) := readWikiStructure w (ds_repoName state) in
  match r with
  | inr (Some wikiStructure) =>
      Ok (w', mkDocState None None (Some wikiStructure) None None None None None)
  | inr None =>
      Ok (w', mkDocState None None (Some WSNull) None None None None (Some topics_of_undefined))
  | inl errorMsg =>
      Ok (w', mkDocState None None (Some WSNull) None None None None (Some errorMsg))
  end.

Definition fetchWikiContentsNode (w : W) (state : DocState) : result (W * DocState) :=
  let '(w', r) := readWikiContents w (ds_repoName state) in
  match r with
  | inr wikiContents => Ok (w', mkDocState None None None (Some wikiContents) None None None None)
  | inl errorMsg => Ok (w', mkDocState None None None (Some "") None None None (Some errorMsg))
  end.

Definition answerQuestionNode (w : W) (state : DocState) : result (W * DocState) :=
  let '(w', r) := askQuestion w (ds_repoName state) (ds_userQuestion state) in
  match r with
  | inr answer => Ok (w', mkDocState None None None None (Some answer) None None None)
  | inl errorMsg => Ok (w', mkDocState None None None None (Some "") None None (Some errorMsg))
  end.

(** [{topicCount, documentLength, hasWiki}] *)
Definition analyzeInsightsNode (w : W) (state : DocState) : result (W * DocState) :=
  let topicCount := match ds_wikiStructure state with
                    | Some (WSTopics _ topics) => length topics
                    | _ => 0
                    end in
  let documentLength := match ds_wikiContents state with
                        | Some c => String.length c
                        | None => 0
                        end in
  let hasWiki := match ds_wikiContents state with
                 | Some c => 0 <? String.length c
                 | None => false
                 end in
  Ok (w, mkDocState None None None None None (Some (topicCount, documentLength, hasWiki))
           None None).

Definition generateSummaryNode (w : W) (state : DocState) : result (W * DocState) :=
  let '(w', r) := summary_model w state in
  match r with
  | inr summary => Ok (w', mkDocState None None None None None None (Some summary) None)
  | inl errorMsg =>
      Ok (w', mkDocState None None None None None None
                (Some (summary_error_prefix +:+ errorMsg)) None)
  end.

Definition doc_graph : Graph DocState DocState W :=
  mkGraph
    [("fetchWikiStructure", fetchWikiStructureNode);
     ("fetchWikiContents", fetchWikiContentsNode);
     ("answerQuestion", answerQuestionNode);
     ("analyzeInsights", analyzeInsightsNode);
     ("generateSummary", generateSummaryNode)]
    [(START, Static "fetchWikiStructure");
     ("fetchWikiStructure",
        Conditional (fun s => (checkError (route_view s)).1) checkError_mapping);
     ("fetchWikiContents", Static "analyzeInsights");
     ("analyzeInsights",
        Conditional (fun s => (shouldAnswerQuestion (route_view s)).1)
          shouldAnswerQuestion_mapping);
     ("answerQuestion", Static "generateSummary");
     ("generateSummary", Static END)].

(** [graph.invoke({repoName, userQuestion: userQuestion || ""})] *)
Definition runDocumentAnalysis (bound : nat) (w : W) (repoName : string)
    (userQuestion : option string) : list string * result (W * DocState) :=
  invoke merge_doc empty_doc doc_graph bound w
    (mkDocState (Some repoName) (Some (default "" userQuestion)) None None None None None None).
End DocGraph.

(* ================================================================= *)
(** ** Concrete inputs *)

(** The scenario of src/graph.ts: [HumanMessage("Add 3 and 4.")], a first
    response calling [add(a=3, b=4)], a second response ["7"]. *)
Definition human_add : Message := HumanMessage "Add 3 and 4." None.
Definition call_add_3_4 : ToolCall :=
  mkToolCall "call_1" "add" [("a", JNum 3); ("b", JNum 4)].
Definition ai_call_add : Message :=
  AIMessage "" (Some "resp_1") (Some [call_add_3_4]).
Definition ai_seven : Message := AIMessage "7" (Some "resp_2") (Some []).

(** A call of [add] whose argument [a] is a string. *)
Definition call_add_bad : ToolCall :=
  mkToolCall "call_2" "add" [("a", JStr "3"); ("b", JNum 4)].
Definition ai_call_add_bad : Message :=
  AIMessage "" (Some "resp_3") (Some [call_add_bad]).

(** A call of a tool that is not registered. *)
Definition call_subtract : ToolCall :=
  mkToolCall "call_3" "subtract" [("a", JNum 3); ("b", JNum 4)].
Definition ai_call_subtract : Message :=
  AIMessage "" (Some "resp_4") (Some [call_subtract]).

(** A one-node graph whose routing function always returns to the node. *)
Definition cyclic_graph : Graph nat nat unit :=
  mkGraph [("loop", fun w _ => Ok (w, 1))]
    [(START, Static "loop");
     ("loop", Conditional (fun _ => "again") [("again", "loop")])].

(** A response reusing the id of the message it answers. *)
Definition human_m1 : Message := HumanMessage "hi" (Some "m1").
Definition ai_m1 : Message := AIMessage "hello" (Some "m1") (Some []).

Definition complex_state0 : ComplexState :=
  mkComplexState "hello" (JStr "unknown") None None None None None None None.


(** Two [processText] calls: upper-case a text, then reverse another. *)
Definition call_upper : ToolCall :=
  mkToolCall "call_4" "processText"
    [("text", JStr "hello world"); ("operation", JStr "uppercase")].
Definition call_reverse : ToolCall :=
  mkToolCall "call_5" "processText" [("text", JStr "abc"); ("operation", JStr "reverse")].
Definition ai_call_text : Message := AIMessage "" None (Some [call_upper; call_reverse]).

(** A wiki structure text with CRLF line ends. *)
Definition crlf_topics : string :=
  "- 1 Overview" +:+ String (Ascii.ascii_of_nat 13) (String (Ascii.ascii_of_nat 10)
  ("- 2 Setup" +:+ String (Ascii.ascii_of_nat 13) (String (Ascii.ascii_of_nat 10) ""))).

(** A DeepWiki server that answers each tool with a fixed result and
    records the names of the tools called. *)
Definition mcp_stub (structure contents answer : string + option (list McpContent))
    (calls : list string) (name : string) (args : list (string * option string))
    : list string * (string + option (list McpContent)) :=
  (calls ++ [name],
   if String.eqb name "read_wiki_structure" then structure
   else if String.eqb name "read_wiki_contents" then contents else answer).

Definition summary_stub (calls : list string) (_ : DocState) : list string * (string + string) :=
  (calls ++ ["summary"], inr "summary").

Definition lf_topics : string :=
  "- 1 Overview" +:+ String (Ascii.ascii_of_nat 10) "- 2 Setup".

Definition structure_ok : string + option (list McpContent) := inr (Some [McpText lf_topics]).
Definition contents_ok : string + option (list McpContent) := inr (Some [McpText "LangGraph docs"]).
Definition answer_ok : string + option (list McpContent) := inr (Some [McpText "A graph library."]).

Definition demo_repo : string := "langchain-ai/langgraphjs".

(* ================================================================= *)
(** * Properties *)

(* ----------------------------------------------------------------- *)
(** ** Executor lemmas *)

Section WalkLemmas.
Context {St Upd W : Type}.
Variable merge : St -> Upd -> St.

Lemma walk_node_fails (g : Graph St Upd W) fuel cur w s fn e :
  assoc cur (g_nodes g) = Some fn -> fn w s = Err e ->
  walk merge g (S fuel) cur w s = ([cur], Err e).
Proof. intros Hn Hf. simpl. rewrite Hn, Hf. reflexivity. Qed.

Lemma walk_continue (g : Graph St Upd W) fuel cur w s fn w' u nxt :
  assoc cur (g_nodes g) = Some fn -> fn w s = Ok (w', u) ->
  next_node g cur (merge s u) = Ok nxt -> String.eqb nxt END = false ->
  walk merge g (S fuel) cur w s =
    let '(log, r) := walk merge g fuel nxt w' (merge s u) in (cur :: log, r).
Proof. intros Hn Hf Hx He. simpl. rewrite Hn, Hf, Hx, He. reflexivity. Qed.

Lemma walk_end (g : Graph St Upd W) fuel cur w s fn w' u :
  assoc cur (g_nodes g) = Some fn -> fn w s = Ok (w', u) ->
  next_node g cur (merge s u) = Ok END ->
  walk merge g (S fuel) cur w s = ([cur], Ok (w', merge s u)).
Proof. intros Hn Hf Hx. simpl. rewrite Hn, Hf, Hx. reflexivity. Qed.

Lemma walk_self_loop (g : Graph St Upd W) n fn route mapping :
  assoc n (g_nodes g) = Some fn ->
  (forall w s, is_ok (fn w s) = true) ->
  assoc n (g_edges g) = Some (Conditional route mapping) ->
  (forall s, assoc (route s) mapping = Some n) ->
  String.eqb n END = false ->
  forall bound w s,
    walk merge g bound n w s = (repeat n bound, Err StepLimitExceeded).
Proof.
  intros Hn Hok He Hr Hend bound.
  induction bound as [|bound IH]; intros w s; [reflexivity|].
  specialize (Hok w s). destruct (fn w s) as [[w' u]|e] eqn:Hf; [|discriminate].
  rewrite (walk_continue g bound n w s fn w' u n); auto.
  - rewrite IH. reflexivity.
  - unfold next_node. rewrite He, Hr. reflexivity.
Qed.
End WalkLemmas.

(* ----------------------------------------------------------------- *)
(** ** C1: routing of the tool-calling loop *)

(** C1: after [llmCall], [shouldContinue] returns ["toolNode"] exactly
    when the last message is an ai-role message with a non-empty list of
    tool calls, and END otherwise; the only edge leaving [toolNode] is the
    static edge to [llmCall]. *)
Theorem shouldContinue_routing {W} (model : W -> list Message -> result (W * Message))
    (state : MessagesState) :
  (shouldContinue state = "toolNode" <->
     exists m, last (messages state) = Some m /\ _getType m = TAI /\
               tool_calls_of m <> []) /\
  (shouldContinue state <> "toolNode" -> shouldContinue state = END) /\
  filter (fun e => e.1 = "toolNode") (g_edges (agent model)) =
    [("toolNode", Static "llmCall")] /\
  next_node (agent model) "toolNode" state = Ok "llmCall".
Proof.
  split; [|split; [|split; reflexivity]].
  - unfold shouldContinue. split.
    + destruct (last (messages state)) as [m|]; [|discriminate].
      repeat case_decide; try discriminate.
      intros _. exists m. split; [reflexivity|]. split.
      * destruct (_getType m); congruence.
      * intros Hc. rewrite Hc in *. simpl in *. lia.
    + intros (m & Hl & Ht & Hc). rewrite Hl. rewrite Ht.
      rewrite decide_False by congruence.
      rewrite decide_True; [reflexivity|].
      destruct (tool_calls_of m); [congruence|simpl; lia].
  - unfold shouldContinue.
    destruct (last (messages state)); [|reflexivity].
    repeat case_decide; congruence.
Qed.

(* ----------------------------------------------------------------- *)
(** ** C9: toolNode and shouldContinue on a state not ending in ai *)

(** C9: when the message list is empty or its last message is not
    ai-role, [toolNode] succeeds with the empty update, merging that update
    leaves the state unchanged, and [shouldContinue] returns END. *)
Theorem toolNode_non_ai_noop (state : MessagesState) :
  (messages state = [] \/
   exists m, last (messages state) = Some m /\ _getType m <> TAI) ->
  toolNode state = Ok (mkMessagesState []) /\
  merge_messages state (mkMessagesState []) = state /\
  shouldContinue state = END.
Proof.
  intros H. split; [|split].
  - unfold toolNode. destruct H as [H | (m & Hl & Ht)].
    + rewrite H. reflexivity.
    + rewrite Hl, decide_True by exact Ht. reflexivity.
  - destruct state. reflexivity.
  - unfold shouldContinue. destruct H as [H | (m & Hl & Ht)].
    + rewrite H. reflexivity.
    + rewrite Hl, decide_True by exact Ht. reflexivity.
Qed.

Lemma toolNode_non_ai_noop_witness :
  (messages (mkMessagesState [human_add]) = [] \/
   exists m, last (messages (mkMessagesState [human_add])) = Some m /\
             _getType m <> TAI) /\
  toolNode (mkMessagesState [human_add]) = Ok (mkMessagesState []) /\
  merge_messages (mkMessagesState [human_add]) (mkMessagesState []) =
    mkMessagesState [human_add] /\
  shouldContinue (mkMessagesState [human_add]) = END.
Proof.
  assert (H : messages (mkMessagesState [human_add]) = [] \/
              exists m, last (messages (mkMessagesState [human_add])) = Some m /\
                        _getType m <> TAI).
  { right. exists human_add. split; [reflexivity | discriminate]. }
  split; [exact H | apply (toolNode_non_ai_noop (mkMessagesState [human_add])); exact H].
Defined.

(* ----------------------------------------------------------------- *)
(** ** C6: the step bound *)

(** C6: in a graph whose routing function always sends a node back to
    itself, and whose node always succeeds, [invoke] fails with
    [StepLimitExceeded] after exactly [bound] executions of that node. *)
Theorem invoke_cycle_step_limit {St Upd W} (merge : St -> Upd -> St)
    (empty : St) (g : Graph St Upd W) n fn route mapping :
  assoc START (g_edges g) = Some (Static n) ->
  assoc n (g_nodes g) = Some fn ->
  (forall w s, is_ok (fn w s) = true) ->
  assoc n (g_edges g) = Some (Conditional route mapping) ->
  (forall s, assoc (route s) mapping = Some n) ->
  String.eqb n END = false ->
  forall bound w input,
    invoke merge empty g bound w input = (repeat n bound, Err StepLimitExceeded) /\
    length (repeat n bound) = bound.
Proof.
  intros Hs Hn Hok He Hr Hend bound w input. split.
  - unfold invoke. rewrite Hs.
    apply (walk_self_loop merge g n fn route mapping); assumption.
  - apply repeat_length.
Qed.

Lemma invoke_cycle_step_limit_witness :
  invoke Nat.add 0 cyclic_graph 50 tt 0 =
    (repeat "loop" 50, Err StepLimitExceeded) /\
  length (repeat "loop" 50) = 50.
Proof.
  apply (invoke_cycle_step_limit Nat.add 0 cyclic_graph "loop"
           (fun w _ => Ok (w, 1)) (fun _ => "again") [("again", "loop")]);
    try reflexivity; intros; reflexivity.
Defined.

(* ----------------------------------------------------------------- *)
(** ** C7: routing functions and their declared mappings *)

Lemma routeByCategory_label (s : ComplexState) :
  (routeByCategory s).1 = "processMath" \/ (routeByCategory s).1 = "processText" \/
  (routeByCategory s).1 = "processData" \/ (routeByCategory s).1 = "enrichData".
Proof. unfold routeByCategory. repeat case_match; simpl; tauto. Qed.

(** C7 (as amended): every routing function returns, for every state, a
    label of its declared mapping (so the unmapped-label error is never
    reached), [routeByCategory] one of processMath, processText,
    processData, enrichData; the label depends on the state only, but the
    routing functions also print trace lines: [routeByCategory] always
    prints one, [checkError] one exactly when an error is recorded, and
    [shouldAnswerQuestion] one exactly when no error is recorded. *)
Theorem routing_labels_in_mapping :
  (forall s, (routeByCategory s).1 ∈
               ["processMath"; "processText"; "processData"; "enrichData"]) /\
  (forall s, is_Some (assoc (routeByCategory s).1 routeByCategory_mapping)) /\
  (forall s, is_Some (assoc (checkError s).1 checkError_mapping)) /\
  (forall s, is_Some (assoc (shouldAnswerQuestion s).1
                        shouldAnswerQuestion_mapping)) /\
  (forall s, is_Some (assoc (shouldContinue s) shouldContinue_mapping)) /\
  (forall s, (routeByCategory s).2 = [TraceRoute (category s)]) /\
  (forall s, length (checkError s).2 = if truthy (error s) then 1 else 0) /\
  (forall s, length (shouldAnswerQuestion s).2 = if truthy (error s) then 0 else 1).
Proof.
  split; [|split; [|split; [|split; [|split; [|split; [|split]]]]]]; intros s.
  - destruct (routeByCategory_label s) as [H|[H|[H|H]]]; rewrite H; set_solver.
  - destruct (routeByCategory_label s) as [H|[H|[H|H]]]; rewrite H; eexists;
      reflexivity.
  - unfold checkError. destruct (truthy (error s)); eexists; reflexivity.
  - unfold shouldAnswerQuestion.
    destruct (truthy (error s)); [eexists; reflexivity|].
    case_match; eexists; reflexivity.
  - unfold shouldContinue. destruct (last (messages s)); [|eexists; reflexivity].
    repeat case_decide; eexists; reflexivity.
  - unfold routeByCategory. repeat case_match; reflexivity.
  - unfold checkError. destruct (truthy (error s)); reflexivity.
  - unfold shouldAnswerQuestion. destruct (truthy (error s)); [reflexivity|].
    destruct (truthy (userQuestion s) && _); reflexivity.
Qed.

(** C7 counterexample: routing is not free of I/O; [routeByCategory]
    writes a trace line through [console.log]. *)
Lemma routeByCategory_not_silent :
  ~ (forall s, (routeByCategory s).2 = []).
Proof. intros H. specialize (H complex_state0). discriminate. Qed.

(* ----------------------------------------------------------------- *)
(** ** C5: the fan-out merge *)

Section PromiseAll.
Context {A : Type}.

Lemma length_fill_slots (sch : list nat) (values : list A) slots :
  length (fill_slots sch values slots) = length slots.
Proof.
  revert slots. induction sch as [|j sch IH]; intros slots; simpl;
    [reflexivity|]. rewrite IH. apply length_insert.
Qed.

Lemma lookup_fill_slots (sch : list nat) (values : list A) slots i :
  i < length slots ->
  fill_slots sch values slots !! i =
    if decide (i ∈ sch) then Some (values !! i) else slots !! i.
Proof.
  revert slots. induction sch as [|j sch IH]; intros slots Hi;
    cbn [fill_slots].
  - rewrite decide_False by set_solver. reflexivity.
  - rewrite IH by (rewrite length_insert; exact Hi).
    destruct (decide (i ∈ sch)) as [Hin|Hin].
    + rewrite decide_True by set_solver. reflexivity.
    + destruct (decide (i = j)) as [->|Hne].
      * rewrite decide_True by set_solver.
        apply list_lookup_insert_eq. exact Hi.
      * rewrite decide_False by set_solver.
        apply list_lookup_insert_ne. congruence.
Qed.

(** Whatever the order in which the tasks complete, [Promise.all]
    resolves to the values in declaration order. *)
Lemma promise_all_any_schedule (sch : list nat) (values : list A) :
  sch ≡ₚ seq 0 (length values) -> promise_all sch values = Some values.
Proof.
  intros Hp. unfold promise_all.
  assert (Hf : fill_slots sch values (replicate (length values) None) =
               Some <$> values).
  { apply list_eq. intros i.
    rewrite list_lookup_fmap.
    destruct (decide (i < length values)) as [Hi|Hi].
    - rewrite lookup_fill_slots by (rewrite length_replicate; exact Hi).
      rewrite decide_True.
      + destruct (lookup_lt_is_Some_2 values i Hi) as [v Hv].
        rewrite Hv. reflexivity.
      + rewrite Hp, elem_of_seq. lia.
    - rewrite lookup_ge_None_2.
      + rewrite lookup_ge_None_2; [reflexivity | lia].
      + rewrite length_fill_slots, length_replicate. lia. }
  rewrite Hf. apply mapM_fmap_Some. reflexivity.
Qed.
End PromiseAll.

Lemma obj_get_set (t : Obj) k k' v :
  obj_get (obj_set t k' v) k = if String.eqb k k' then Some v else obj_get t k.
Proof.
  induction t as [|[k0 v0] t IH]; simpl.
  - reflexivity.
  - destruct (String.eqb_spec k' k0) as [->|Hne]; simpl.
    + destruct (String.eqb k k0); reflexivity.
    + rewrite IH. destruct (String.eqb_spec k k0) as [->|Hne0].
      * destruct (String.eqb_spec k0 k') as [->|]; [congruence|reflexivity].
      * reflexivity.
Qed.

Lemma obj_get_not_key (o : Obj) k :
  k ∉ o.*1 -> obj_get o k = None.
Proof.
  induction o as [|[k0 v0] o IH]; simpl; intros Hk; [reflexivity|].
  destruct (String.eqb_spec k k0) as [->|]; [set_solver|].
  apply IH. set_solver.
Qed.

Lemma obj_get_copy (o : Obj) (t : Obj) k :
  NoDup o.*1 ->
  obj_get (foldl (fun t '(k, v) => obj_set t k v) t o) k =
    match obj_get o k with Some v => Some v | None => obj_get t k end.
Proof.
  revert t. induction o as [|[k0 v0] o IH]; intros t Hnd; simpl; [reflexivity|].
  simpl in Hnd. apply NoDup_cons in Hnd as [Hk0 Hnd].
  rewrite IH by exact Hnd. rewrite obj_get_set.
  destruct (String.eqb_spec k k0) as [->|Hne].
  - rewrite (obj_get_not_key o k0 Hk0). reflexivity.
  - destruct (obj_get o k); reflexivity.
Qed.

(** C5 (as amended): the sub-task results are merged in declaration order
    whatever the completion order, and a property written by a
    later-declared source overrides the earlier ones; the merged object is
    a function of the input state and of the [Math.random()] draw. *)
Theorem enrichDataNode_declaration_order (st : ComplexState) (random : Q)
    (sch1 sch2 : list nat) :
  sch1 ≡ₚ [0; 1; 2] -> sch2 ≡ₚ [0; 1; 2] ->
  enrichDataNode st random sch1 = Some (object_assign (enrich_tasks st random)) /\
  enrichDataNode st random sch1 = enrichDataNode st random sch2 /\
  (forall (objs : list Obj) (o : Obj) k, NoDup o.*1 ->
     obj_get (object_assign (objs ++ [o])) k =
       match obj_get o k with Some v => Some v | None => obj_get (object_assign objs) k end).
Proof.
  intros H1 H2.
  assert (E : forall sch, sch ≡ₚ [0; 1; 2] ->
             enrichDataNode st random sch = Some (object_assign (enrich_tasks st random))).
  { intros sch Hs. unfold enrichDataNode.
    rewrite (promise_all_any_schedule sch (enrich_tasks st random) Hs).
    reflexivity. }
  split; [|split].
  - apply E, H1.
  - rewrite (E sch1 H1), (E sch2 H2). reflexivity.
  - intros objs o k Hnd. unfold object_assign. rewrite foldl_app. simpl.
    apply obj_get_copy, Hnd.
Qed.

Lemma enrichDataNode_declaration_order_witness :
  [2; 0; 1] ≡ₚ [0; 1; 2] /\ [1; 2; 0] ≡ₚ [0; 1; 2] /\
  enrichDataNode complex_state0 (1#4) [2; 0; 1] =
    Some (object_assign (enrich_tasks complex_state0 (1#4))) /\
  enrichDataNode complex_state0 (1#4) [2; 0; 1] =
    enrichDataNode complex_state0 (1#4) [1; 2; 0] /\
  (forall (objs : list Obj) (o : Obj) k, NoDup o.*1 ->
     obj_get (object_assign (objs ++ [o])) k =
       match obj_get o k with Some v => Some v | None => obj_get (object_assign objs) k end).
Proof.
  assert (H1 : [2; 0; 1] ≡ₚ [0; 1; 2]) by (apply (bool_decide_unpack _); vm_compute; exact I).
  assert (H2 : [1; 2; 0] ≡ₚ [0; 1; 2]) by (apply (bool_decide_unpack _); vm_compute; exact I).
  split; [exact H1|split; [exact H2|]].
  apply (enrichDataNode_declaration_order complex_state0 (1#4) [2; 0; 1] [1; 2; 0] H1 H2).
Defined.

(** C5 counterexample: two runs on the same state with the same
    completion order but different [Math.random()] draws give different
    enrichment objects. *)
Lemma enrichDataNode_depends_on_random :
  ~ (forall st r1 r2 sch1 sch2, sch1 ≡ₚ [0; 1; 2] -> sch2 ≡ₚ [0; 1; 2] ->
       enrichDataNode st r1 sch1 = enrichDataNode st r2 sch2).
Proof.
  intros H.
  specialize (H complex_state0 (9#10) (1#10) [0; 1; 2] [0; 1; 2]
                ltac:(reflexivity) ltac:(reflexivity)).
  vm_compute in H. discriminate.
Qed.

(* ----------------------------------------------------------------- *)
(** ** C8: the merge of the messages channel *)

Lemma msg_ids_app (l1 l2 : list Message) :
  msg_ids (l1 ++ l2) = msg_ids l1 ++ msg_ids l2.
Proof. apply omap_app. Qed.

Lemma msg_ids_singleton (m : Message) :
  msg_ids [m] = match msg_id m with Some i => [i] | None => [] end.
Proof. unfold msg_ids. simpl. destruct (msg_id m); reflexivity. Qed.

Lemma last_index_of_id_absent i (l : list Message) k acc :
  i ∉ msg_ids l -> last_index_of_id i l k acc = acc.
Proof.
  revert k acc. induction l as [|m l IH]; intros k acc Hi; simpl; [reflexivity|].
  rewrite decide_False.
  - apply IH. intros Hin. apply Hi.
    change (m :: l) with ([m] ++ l). rewrite msg_ids_app. set_solver.
  - intros Hm. apply Hi.
    change (m :: l) with ([m] ++ l). rewrite msg_ids_app, msg_ids_singleton, Hm.
    set_solver.
Qed.

Lemma last_index_of_id_found i (l : list Message) k0 acc k :
  last_index_of_id i l k0 acc = Some k ->
  acc = Some k \/ (k0 <= k /\ exists m, l !! (k - k0) = Some m /\ msg_id m = Some i).
Proof.
  revert k0 acc. induction l as [|m l IH]; intros k0 acc H; simpl in H; [left; exact H|].
  apply IH in H as [H | (Hle & m' & Hl & Hm')].
  - case_decide; [|left; exact H].
    right. injection H as <-. split; [lia|].
    exists m. rewrite Nat.sub_diag. split; [reflexivity | assumption].
  - right. split; [lia|]. exists m'.
    replace (k - k0) with (S (k - S k0)) by lia. split; assumption.
Qed.

Lemma msg_ids_insert (l : list Message) k m0 m :
  l !! k = Some m0 -> msg_id m0 = msg_id m -> msg_ids (<[k := m]> l) = msg_ids l.
Proof.
  revert k. induction l as [|x l IH]; intros k Hk Hid; [discriminate|].
  destruct k as [|k]; simpl in Hk.
  - injection Hk as ->. unfold msg_ids. simpl. rewrite Hid. reflexivity.
  - change (msg_ids (<[S k:=m]> (x :: l))) with (msg_ids ([x] ++ <[k:=m]> l)).
    change (msg_ids (x :: l)) with (msg_ids ([x] ++ l)).
    rewrite !msg_ids_app, (IH k Hk Hid). reflexivity.
Qed.

Lemma merge_one_grows (l : list Message) m :
  length l <= length (merge_one l m) /\ msg_ids l `prefix_of` msg_ids (merge_one l m).
Proof.
  unfold merge_one. destruct (msg_id m) as [i|] eqn:Hm.
  - destruct (last_index_of_id i l 0 None) as [k|] eqn:Hk.
    + apply last_index_of_id_found in Hk as [Hk | (_ & m0 & Hl & Hm0)]; [discriminate|].
      rewrite Nat.sub_0_r in Hl. rewrite length_insert.
      rewrite (msg_ids_insert l k m0 m Hl) by congruence. split; reflexivity.
    + rewrite length_app, msg_ids_app. split; [simpl; lia | apply prefix_app_r; reflexivity].
  - rewrite length_app, msg_ids_app. split; [simpl; lia | apply prefix_app_r; reflexivity].
Qed.

Lemma addMessages_grows (l r : list Message) :
  length l <= length (addMessages l r) /\ msg_ids l `prefix_of` msg_ids (addMessages l r).
Proof.
  unfold addMessages. revert l. induction r as [|m r IH]; intros l; simpl.
  - split; reflexivity.
  - destruct (merge_one_grows l m) as [H1 H2]. destruct (IH (merge_one l m)) as [H3 H4].
    split; [lia | etransitivity; eassumption].
Qed.

Lemma addMessages_fresh (l r : list Message) :
  fresh_for l r -> addMessages l r = l ++ r.
Proof.
  unfold addMessages. revert l. induction r as [|m r IH]; intros l [Hnd Hfr]; simpl.
  - rewrite app_nil_r. reflexivity.
  - assert (Hm : merge_one l m = l ++ [m]).
    { unfold merge_one. destruct (msg_id m) as [i|] eqn:Hi; [|reflexivity].
      rewrite last_index_of_id_absent; [reflexivity|].
      apply Hfr. change (m :: r) with ([m] ++ r).
      rewrite msg_ids_app, msg_ids_singleton, Hi. set_solver. }
    rewrite Hm. change (m :: r) with ([m] ++ r) in *.
    rewrite msg_ids_app, msg_ids_singleton in Hnd, Hfr.
    rewrite IH.
    + rewrite <- app_assoc. reflexivity.
    + split.
      * destruct (msg_id m); [apply NoDup_cons in Hnd as [_ Hnd]|]; exact Hnd.
      * intros j Hj. rewrite msg_ids_app, msg_ids_singleton.
        destruct (msg_id m) as [i|] eqn:Hi.
        -- apply NoDup_cons in Hnd as [Hni _].
           assert (j <> i) by (intros ->; contradiction).
           specialize (Hfr j ltac:(set_solver)). set_solver.
        -- specialize (Hfr j ltac:(set_solver)). set_solver.
Qed.

Lemma last_index_of_id_none i (l : list Message) k0 acc :
  last_index_of_id i l k0 acc = None -> acc = None /\ i ∉ msg_ids l.
Proof.
  revert k0 acc. induction l as [|m l IH]; intros k0 acc H; simpl in H.
  - split; [exact H | apply not_elem_of_nil].
  - apply IH in H as [Hacc Hl]. case_decide as Hm; [discriminate|].
    split; [exact Hacc|].
    change (m :: l) with ([m] ++ l). rewrite msg_ids_app, msg_ids_singleton.
    destruct (msg_id m) as [j|] eqn:Hj; [|exact Hl].
    rewrite elem_of_app, list_elem_of_singleton.
    intros [->|Hin]; [apply Hm; reflexivity | exact (Hl Hin)].
Qed.

Lemma last_index_of_id_after i (l : list Message) k0 acc k :
  last_index_of_id i l k0 acc = Some k ->
  forall j m1, l !! j = Some m1 -> msg_id m1 = Some i -> k0 + j <= k.
Proof.
  revert k0 acc. induction l as [|m l IH]; intros k0 acc H j m1 Hj Hm1;
    [discriminate|].
  simpl in H. destruct j as [|j]; simpl in Hj.
  - injection Hj as ->. rewrite decide_True in H by exact Hm1.
    apply last_index_of_id_found in H as [H|(Hle & _)]; [injection H; lia | lia].
  - pose proof (IH _ _ H j m1 Hj Hm1). lia.
Qed.

(** C8 (as amended): the merge of the messages channel never shortens the
    transcript and keeps the ids it had, in order.  The returned messages
    are merged one after the other in arrival order: each is appended,
    unless it reuses the id of a message already in the transcript, and
    then it replaces that message (the last one with the id) in place.
    When the returned messages carry fresh ids the merge is concatenation
    and the old transcript is a prefix of the new one. *)
Theorem messages_merge_append (l r : list Message) :
  length l <= length (addMessages l r) /\
  msg_ids l `prefix_of` msg_ids (addMessages l r) /\
  (fresh_for l r -> addMessages l r = l ++ r /\ l `prefix_of` addMessages l r) /\
  (forall m r', r = m :: r' -> addMessages l r = addMessages (merge_one l m) r') /\
  (forall t m, (forall i, msg_id m = Some i -> i ∉ msg_ids t) -> merge_one t m = t ++ [m]) /\
  (forall t m i, msg_id m = Some i -> i ∈ msg_ids t ->
     exists k m0, t !! k = Some m0 /\ msg_id m0 = Some i /\
       (forall j m1, k < j -> t !! j = Some m1 -> msg_id m1 <> Some i) /\
       merge_one t m = <[k := m]> t).
Proof.
  destruct (addMessages_grows l r) as [H1 H2].
  split; [exact H1 | split; [exact H2|]]. split.
  { intros Hf. rewrite (addMessages_fresh l r Hf). split; [reflexivity|].
    apply prefix_app_r. reflexivity. }
  split; [intros m r' ->; reflexivity|]. split.
  - intros t m Hnew. unfold merge_one.
    destruct (msg_id m) as [i|] eqn:Hi; [|reflexivity].
    destruct (last_index_of_id i t 0 None) as [k|] eqn:Hk; [|reflexivity].
    apply last_index_of_id_found in Hk as [Hk|(_ & m0 & Ht & Hm0)]; [discriminate|].
    exfalso. apply (Hnew i eq_refl). apply list_elem_of_omap. exists m0.
    split; [eapply list_elem_of_lookup_2; exact Ht | exact Hm0].
  - intros t m i Hi Hin. unfold merge_one. rewrite Hi.
    destruct (last_index_of_id i t 0 None) as [k|] eqn:Hk.
    + pose proof (last_index_of_id_after i t 0 None k Hk) as Haft.
      apply last_index_of_id_found in Hk as [Hk|(_ & m0 & Ht & Hm0)]; [discriminate|].
      rewrite Nat.sub_0_r in Ht.
      exists k, m0. split; [exact Ht|]. split; [exact Hm0|]. split; [|reflexivity].
      intros j m1 Hkj Hj Hm1. specialize (Haft j m1 Hj Hm1). lia.
    + apply last_index_of_id_none in Hk as [_ Hk]. contradiction.
Qed.

Lemma messages_merge_append_witness :
  fresh_for [human_add] [ai_call_add] /\
  addMessages [human_add] [ai_call_add] = [human_add; ai_call_add] /\
  [human_add] `prefix_of` addMessages [human_add] [ai_call_add].
Proof.
  assert (Hf : fresh_for [human_add] [ai_call_add]).
  { split.
    - vm_compute. constructor; [set_solver | constructor].
    - vm_compute. set_solver. }
  destruct (messages_merge_append [human_add] [ai_call_add]) as (_ & _ & H & _).
  split; [exact Hf | apply (H Hf)].
Defined.

(** C8 counterexample: a model response that reuses the id of the human
    message replaces it, so the initial transcript is not a prefix of the
    final one. *)
Lemma transcript_prefix_broken :
  agent_invoke stub_model 25 [ai_m1] (mkMessagesState [human_m1]) =
    (["llmCall"], Ok ([], mkMessagesState [ai_m1])) /\
  ~ [human_m1] `prefix_of` [ai_m1].
Proof.
  split; [reflexivity|].
  intros Hp. apply prefix_cons_inv_1 in Hp. discriminate.
Qed.

(* ----------------------------------------------------------------- *)
(** ** C3: the "Add 3 and 4." scenario *)

(** C3: with the stubbed model answering first with a call
    [add(a=3, b=4)] and then with ["7"], the agent of src/graph.ts ends
    with exactly four messages: the human message, the ai message with the
    call, one tool message with the value 7 tagged with the call id
    "call_1", and the ai message "7". *)
Theorem add_scenario_transcript :
  agent_invoke stub_model 25 [ai_call_add; ai_seven] (mkMessagesState [human_add]) =
    (["llmCall"; "toolNode"; "llmCall"],
     Ok ([], mkMessagesState
               [human_add; ai_call_add;
                ToolMessage (JNum 7) None (tc_id call_add_3_4) "add"; ai_seven])) /\
  map _getType [human_add; ai_call_add;
                ToolMessage (JNum 7) None (tc_id call_add_3_4) "add"; ai_seven] =
    [THuman; TAI; TTool; TAI].
Proof. split; reflexivity. Qed.

(* ----------------------------------------------------------------- *)
(** ** C4 and C10: failing tool calls *)

Lemma run_tool_calls_fails (tcs : list ToolCall) tc e :
  tc ∈ tcs -> invoke_by_name tc = Err e -> exists e', run_tool_calls tcs = Err e'.
Proof.
  induction tcs as [|x tcs IH]; intros Hin He; [set_solver|].
  simpl. destruct (invoke_by_name x) as [o|e0] eqn:Hx; [|eexists; reflexivity].
  apply elem_of_cons in Hin as [->|Hin]; [congruence|].
  destruct (IH Hin He) as [e' He']. rewrite He'. eexists; reflexivity.
Qed.

Lemma run_tool_calls_succeeds (tcs : list ToolCall) :
  Forall (fun tc => is_ok (invoke_by_name tc) = true) tcs ->
  is_ok (run_tool_calls tcs) = true.
Proof.
  induction 1 as [|tc tcs Hok _ IH]; [reflexivity|].
  simpl. destruct (invoke_by_name tc); [|discriminate].
  destruct (run_tool_calls tcs); [reflexivity | discriminate].
Qed.

Lemma invoke_by_name_valid (tc : ToolCall) t :
  lookup_tool (tc_name tc) = Some t -> is_Some (tool_schema t (tc_args tc)) ->
  is_ok (invoke_by_name tc) = true.
Proof.
  intros Ht [a Ha]. unfold invoke_by_name, tool_invoke. rewrite Ht, Ha.
  reflexivity.
Qed.

(** C4 (as amended): when a pending call of the last ai message names a
    registered tool but its arguments fail that tool's schema, the tool
    body is not run and [tool.invoke] throws; [toolNode] does not catch it,
    so the node fails, and the walk stops there with that error, without
    another model call. *)
Theorem invalid_args_toolNode_fails {W} (model : W -> list Message -> result (W * Message))
    (state : MessagesState) m tc t fuel w :
  last (messages state) = Some m -> _getType m = TAI -> tc ∈ tool_calls_of m ->
  lookup_tool (tc_name tc) = Some t -> tool_schema t (tc_args tc) = None ->
  exists e, toolNode state = Err e /\
    walk merge_messages (agent model) (S fuel) "toolNode" w state = (["toolNode"], Err e).
Proof.
  intros Hl Ht Hin Htool Hs.
  assert (He : invoke_by_name tc = Err (ToolInputParsingException (tool_name t))).
  { unfold invoke_by_name, tool_invoke. rewrite Htool, Hs. reflexivity. }
  destruct (run_tool_calls_fails _ tc _ Hin He) as [e' He'].
  assert (Hn : toolNode state = Err e').
  { unfold toolNode. rewrite Hl, decide_False by congruence. rewrite He'. reflexivity. }
  exists e'. split; [exact Hn|].
  apply (walk_node_fails merge_messages (agent model) fuel "toolNode" w state
           (@toolNode_node W)); [reflexivity|].
  unfold toolNode_node. rewrite Hn. reflexivity.
Qed.

Lemma invalid_args_toolNode_fails_witness :
  last (messages (mkMessagesState [human_add; ai_call_add_bad])) = Some ai_call_add_bad /\
  _getType ai_call_add_bad = TAI /\ call_add_bad ∈ tool_calls_of ai_call_add_bad /\
  lookup_tool (tc_name call_add_bad) = Some add /\ tool_schema add (tc_args call_add_bad) = None /\
  exists e, toolNode (mkMessagesState [human_add; ai_call_add_bad]) = Err e /\
    walk merge_messages (agent stub_model) 24 "toolNode" [ai_seven]
      (mkMessagesState [human_add; ai_call_add_bad]) = (["toolNode"], Err e).
Proof.
  assert (H1 : last (messages (mkMessagesState [human_add; ai_call_add_bad])) = Some ai_call_add_bad) by reflexivity.
  assert (H2 : _getType ai_call_add_bad = TAI) by reflexivity.
  assert (H3 : call_add_bad ∈ tool_calls_of ai_call_add_bad) by (simpl; set_solver).
  assert (H4 : lookup_tool (tc_name call_add_bad) = Some add) by reflexivity.
  assert (H5 : tool_schema add (tc_args call_add_bad) = None) by reflexivity.
  split; [exact H1|split; [exact H2|split; [exact H3|split; [exact H4|split; [exact H5|]]]]].
  apply (invalid_args_toolNode_fails stub_model _ ai_call_add_bad call_add_bad add 23 [ai_seven]
           H1 H2 H3 H4 H5).
Defined.

(** C4 counterexample: on [add(a="3", b=4)] the node fails with the
    parsing error instead of appending a tool message, and the walk of
    the agent fails with it. *)
Lemma invalid_args_fail_the_walk :
  toolNode (mkMessagesState [human_add; ai_call_add_bad]) =
    Err (ToolInputParsingException "add") /\
  agent_invoke stub_model 25 [ai_call_add_bad; ai_seven] (mkMessagesState [human_add]) =
    (["llmCall"; "toolNode"], Err (ToolInputParsingException "add")).
Proof. split; reflexivity. Qed.

(** C10 (as amended): if every pending call of the last ai message names a
    registered tool and its arguments pass that tool's schema, [toolNode]
    succeeds; if some pending call names a tool that is not registered,
    [toolNode] fails. *)
Theorem toolNode_registry_outcome :
  (forall state : MessagesState,
     (forall m, last (messages state) = Some m -> _getType m = TAI ->
        Forall (fun tc => exists t, lookup_tool (tc_name tc) = Some t /\
                                    is_Some (tool_schema t (tc_args tc)))
               (tool_calls_of m)) ->
     is_ok (toolNode state) = true) /\
  (forall (state : MessagesState) m tc,
     last (messages state) = Some m -> _getType m = TAI -> tc ∈ tool_calls_of m ->
     lookup_tool (tc_name tc) = None -> is_ok (toolNode state) = false).
Proof.
  split.
  - intros state H. unfold toolNode.
    destruct (last (messages state)) as [m|] eqn:Hl; [|reflexivity].
    case_decide as Ht; [reflexivity|].
    assert (Hm : Forall (fun tc => is_ok (invoke_by_name tc) = true) (tool_calls_of m)).
    { eapply Forall_impl; [apply H; [reflexivity | destruct (_getType m); congruence]|].
      intros tc (t & Ht' & Hs). eapply invoke_by_name_valid; eassumption. }
    pose proof (run_tool_calls_succeeds _ Hm) as Hok.
    destruct (run_tool_calls (tool_calls_of m)); [reflexivity | discriminate].
  - intros state m tc Hl Ht Hin Hnone.
    assert (He : invoke_by_name tc = Err (unregistered_error (tc_name tc))).
    { unfold invoke_by_name. rewrite Hnone. reflexivity. }
    destruct (run_tool_calls_fails _ tc _ Hin He) as [e' He'].
    unfold toolNode. rewrite Hl, decide_False by congruence. rewrite He'. reflexivity.
Qed.

Lemma toolNode_registry_outcome_witness :
  is_ok (toolNode (mkMessagesState [human_add; ai_call_add])) = true /\
  is_ok (toolNode (mkMessagesState [human_add; ai_call_subtract])) = false.
Proof.
  destruct toolNode_registry_outcome as [HA HB]. split.
  - apply HA. intros m Hl _. simpl in Hl. injection Hl as <-.
    constructor; [|constructor]. exists add. split; [reflexivity | eexists; reflexivity].
  - apply (HB _ ai_call_subtract call_subtract); [reflexivity | reflexivity | simpl; set_solver | reflexivity].
Defined.

(** C10 counterexample: the single pending call names the registered tool
    [add], yet [toolNode] fails, since its arguments fail the schema. *)
Lemma registered_tool_can_fail :
  Forall (fun tc => is_Some (lookup_tool (tc_name tc))) (tool_calls_of ai_call_add_bad) /\
  is_ok (toolNode (mkMessagesState [human_add; ai_call_add_bad])) = false.
Proof.
  split; [|reflexivity]. constructor; [eexists; reflexivity | constructor].
Qed.

(* ----------------------------------------------------------------- *)
(** ** C2: number of cycles and of appended messages *)

Lemma nodup_ids_fresh (l r : list Message) :
  NoDup (msg_ids (l ++ r)) -> fresh_for l r.
Proof.
  rewrite msg_ids_app, NoDup_app. intros (_ & Hdis & Hr). split; [exact Hr|].
  intros i Hi Hl. exact (Hdis i Hl Hi).
Qed.

Lemma nodup_ids_app_l (l r : list Message) :
  NoDup (msg_ids (l ++ r)) -> NoDup (msg_ids l).
Proof. rewrite msg_ids_app, NoDup_app. tauto. Qed.

Lemma invoke_by_name_no_id tc tm :
  invoke_by_name tc = Ok tm -> msg_id tm = None.
Proof.
  unfold invoke_by_name, tool_invoke.
  destruct (lookup_tool (tc_name tc)) as [t|]; [|discriminate].
  destruct (tool_schema t (tc_args tc)); [|discriminate].
  intros H. injection H as <-. reflexivity.
Qed.

Lemma shouldContinue_last_plain (state : MessagesState) m :
  last (messages state) = Some m -> tool_calls_of m = [] -> shouldContinue state = END.
Proof.
  intros Hl Hc. unfold shouldContinue. rewrite Hl, Hc.
  repeat case_decide; try reflexivity. simpl in *. lia.
Qed.

Lemma shouldContinue_last_calls (state : MessagesState) m :
  last (messages state) = Some m -> _getType m = TAI -> tool_calls_of m <> [] ->
  shouldContinue state = "toolNode".
Proof.
  intros Hl Ht Hc. unfold shouldContinue. rewrite Hl.
  rewrite decide_False by congruence. rewrite decide_True; [reflexivity|].
  destruct (tool_calls_of m); [congruence | simpl; lia].
Qed.

Lemma agent_walk_loop (final : Message) (tcms : list Message) :
  forall (T : list Message) fuel,
  Forall (fun m => exists c i tc, m = AIMessage c i (Some [tc]) /\
                                  is_ok (invoke_by_name tc) = true) tcms ->
  tool_calls_of final = [] ->
  NoDup (msg_ids (T ++ tcms ++ [final])) ->
  2 * length tcms + 1 <= fuel ->
  exists T',
    walk merge_messages (agent stub_model) fuel "llmCall" (tcms ++ [final])
         (mkMessagesState T) =
      ("llmCall" :: concat (repeat ["toolNode"; "llmCall"] (length tcms)),
       Ok ([], mkMessagesState T')) /\
    length T' = length T + (2 * length tcms + 1) /\ T `prefix_of` T' /\
    last T' = Some final.
Proof.
  induction tcms as [|m tcms IH]; intros T fuel Hall Hfin Hnd Hfuel; simpl in Hfuel.
  - destruct fuel as [|f]; [lia|]. change ([] ++ [final]) with [final].
    assert (Hm : merge_messages (mkMessagesState T) (mkMessagesState [final]) =
                 mkMessagesState (T ++ [final])).
    { unfold merge_messages. cbn [messages]. rewrite addMessages_fresh; [reflexivity|].
      apply nodup_ids_fresh. exact Hnd. }
    exists (T ++ [final]).
    rewrite (walk_end merge_messages (agent stub_model) f "llmCall" [final]
               (mkMessagesState T) (llmCall stub_model) [] (mkMessagesState [final]));
      [| reflexivity | reflexivity |].
    + rewrite Hm. split; [reflexivity|]. rewrite length_app. simpl.
      split; [lia|]. split; [apply prefix_app_r; reflexivity | apply last_snoc].
    + rewrite Hm. unfold next_node. cbn -[shouldContinue END].
      rewrite (shouldContinue_last_plain _ final); [reflexivity | apply last_snoc | exact Hfin].
  - apply Forall_cons in Hall as [(c & i & tc & -> & Hok) Hall].
    destruct (invoke_by_name tc) as [tm|e] eqn:Htc; [|discriminate].
    destruct fuel as [|[|f]]; [lia|lia|].
    set (m := AIMessage c i (Some [tc])) in *.
    assert (Hnd1 : NoDup (msg_ids (T ++ [m]))).
    { apply (nodup_ids_app_l _ (tcms ++ [final])). rewrite <- app_assoc. exact Hnd. }
    assert (Hm1 : merge_messages (mkMessagesState T) (mkMessagesState [m]) =
                  mkMessagesState (T ++ [m])).
    { unfold merge_messages. cbn [messages]. rewrite addMessages_fresh; [reflexivity|].
      apply nodup_ids_fresh. exact Hnd1. }
    assert (Hm2 : merge_messages (mkMessagesState (T ++ [m])) (mkMessagesState [tm]) =
                  mkMessagesState (T ++ [m] ++ [tm])).
    { unfold merge_messages. cbn [messages]. rewrite addMessages_fresh; [rewrite app_assoc; reflexivity|].
      split; rewrite msg_ids_singleton, (invoke_by_name_no_id tc tm Htc);
        [constructor | set_solver]. }
    assert (Htn : toolNode (mkMessagesState (T ++ [m])) = Ok (mkMessagesState [tm])).
    { unfold toolNode. simpl messages. rewrite last_snoc.
      rewrite decide_False by (simpl; congruence). simpl. rewrite Htc. reflexivity. }
    rewrite (walk_continue merge_messages (agent stub_model) (S f) "llmCall"
               ((m :: tcms) ++ [final]) (mkMessagesState T) (llmCall stub_model)
               (tcms ++ [final]) (mkMessagesState [m]) "toolNode");
      [| reflexivity | reflexivity | | reflexivity].
    2:{ rewrite Hm1. unfold next_node. cbn -[shouldContinue END].
        rewrite (shouldContinue_last_calls _ m); [reflexivity | apply last_snoc
                                                 | reflexivity | discriminate]. }
    rewrite Hm1.
    rewrite (walk_continue merge_messages (agent stub_model) f "toolNode"
               (tcms ++ [final]) (mkMessagesState (T ++ [m])) (@toolNode_node _)
               (tcms ++ [final]) (mkMessagesState [tm]) "llmCall");
      [| reflexivity | unfold toolNode_node; rewrite Htn; reflexivity | reflexivity
       | reflexivity].
    rewrite Hm2.
    destruct (IH (T ++ [m] ++ [tm]) f Hall Hfin) as (T' & Hw & Hlen & Hpre & Hlast).
    + rewrite !msg_ids_app, (msg_ids_singleton tm), (invoke_by_name_no_id tc tm Htc).
      change (m :: tcms) with ([m] ++ tcms) in Hnd.
      rewrite !msg_ids_app in Hnd. rewrite app_nil_r.
      rewrite <- !app_assoc in *. exact Hnd.
    + lia.
    + exists T'. rewrite Hw. split; [reflexivity|].
      rewrite !length_app in Hlen. simpl in Hlen. split; [simpl; lia|].
      split; [|exact Hlast].
      etransitivity; [|exact Hpre]. apply prefix_app_r. reflexivity.
Qed.

Lemma functional_loop_run (final : Message) (tcms : list Message) :
  forall (msgs rest : list Message) r fuel,
  r :: rest = tcms ++ [final] ->
  Forall (fun m => exists c i tc, m = AIMessage c i (Some [tc]) /\
                                  is_ok (invoke_by_name tc) = true) tcms ->
  tool_calls_of final = [] ->
  NoDup (msg_ids (msgs ++ tcms ++ [final])) ->
  length tcms + 1 <= fuel ->
  exists msgs',
    functional_loop stub_model fuel rest msgs r = Some (Ok ([], msgs')) /\
    length msgs' = length msgs + 2 * length tcms /\ msgs `prefix_of` msgs'.
Proof.
  induction tcms as [|m tcms IH]; intros msgs rest r fuel Heq Hall Hfin Hnd Hfuel;
    simpl in Hfuel.
  - injection Heq as -> ->. destruct fuel as [|f]; [lia|].
    exists msgs. cbn [functional_loop]. rewrite Hfin.
    rewrite decide_True by reflexivity. split; [reflexivity|]. split; [simpl; lia | reflexivity].
  - injection Heq as -> ->.
    apply Forall_cons in Hall as [(c & i & tc & -> & Hok) Hall].
    destruct (invoke_by_name tc) as [tm|e] eqn:Htc; [|discriminate].
    destruct fuel as [|f]; [lia|].
    set (m := AIMessage c i (Some [tc])) in *.
    assert (Hrun : run_tool_calls (tool_calls_of m) = Ok [tm]).
    { simpl. rewrite Htc. reflexivity. }
    assert (Hids : msg_ids [m; tm] = msg_ids [m]).
    { change [m; tm] with ([m] ++ [tm]).
      rewrite msg_ids_app, (msg_ids_singleton tm), (invoke_by_name_no_id tc tm Htc).
      apply app_nil_r. }
    assert (Hadd : addMessages msgs [m; tm] = msgs ++ [m; tm]).
    { apply addMessages_fresh.
      assert (Hf : fresh_for msgs [m]).
      { apply nodup_ids_fresh, (nodup_ids_app_l _ (tcms ++ [final])).
        rewrite <- app_assoc. exact Hnd. }
      unfold fresh_for in *. rewrite Hids. exact Hf. }
    cbn [functional_loop].
    rewrite decide_False by (simpl; lia).
    rewrite Hrun, Hadd.
    assert (Hne : exists r' rest', tcms ++ [final] = r' :: rest')
      by (destruct tcms as [|x t]; [exists final, [] | exists x, (t ++ [final])];
          reflexivity).
    destruct Hne as (r' & rest' & E). rewrite E.
    cbn [callLlm stub_model].
    destruct (IH (msgs ++ [m; tm]) rest' r' f (eq_sym E) Hall Hfin) as (msgs' & Hl & Hlen & Hpre).
    + rewrite !msg_ids_app, Hids.
      change (m :: tcms) with ([m] ++ tcms) in Hnd.
      rewrite !msg_ids_app in Hnd. rewrite <- !app_assoc in *. exact Hnd.
    + lia.
    + exists msgs'. split; [exact Hl|]. rewrite length_app in Hlen. simpl in Hlen.
      split; [simpl; lia|]. etransitivity; [|exact Hpre]. apply prefix_app_r. reflexivity.
Qed.

(** C2 (as amended): when the stubbed model returns k ai messages each
    carrying exactly one call of a registered tool with valid arguments,
    then a message without tool calls, and the message ids are fresh, the
    agent of src/graph.ts runs exactly k toolNode/llmCall cycles (given a
    step bound of at least 2k+1) and appends 2k+1 messages (k ai messages
    with a call, k tool results, the final plain ai message) after the
    initial ones; the loop of src/functional.ts returns the initial
    messages followed by 2k messages, the final plain reply not being
    added. *)
Theorem tool_loop_message_count (init tcms : list Message) (final : Message)
    (bound fuel : nat) :
  Forall (fun m => exists c i tc, m = AIMessage c i (Some [tc]) /\
                                  is_ok (invoke_by_name tc) = true) tcms ->
  tool_calls_of final = [] ->
  NoDup (msg_ids (init ++ tcms ++ [final])) ->
  2 * length tcms + 1 <= bound -> length tcms + 1 <= fuel ->
  (exists T,
     agent_invoke stub_model bound (tcms ++ [final]) (mkMessagesState init) =
       ("llmCall" :: concat (repeat ["toolNode"; "llmCall"] (length tcms)),
        Ok ([], mkMessagesState T)) /\
     length T = length init + (2 * length tcms + 1) /\ init `prefix_of` T /\
     last T = Some final) /\
  (exists T,
     functional_agent stub_model fuel (tcms ++ [final]) init = Some (Ok ([], T)) /\
     length T = length init + 2 * length tcms /\ init `prefix_of` T).
Proof.
  intros Hall Hfin Hnd Hbound Hfuel. split.
  - assert (Hi : merge_messages (mkMessagesState []) (mkMessagesState init) =
                 mkMessagesState init).
    { unfold merge_messages. cbn [messages]. rewrite addMessages_fresh; [reflexivity|].
      apply nodup_ids_fresh. exact (nodup_ids_app_l _ _ Hnd). }
    change (agent_invoke stub_model bound (tcms ++ [final]) (mkMessagesState init))
      with (walk merge_messages (agent stub_model) bound "llmCall" (tcms ++ [final])
              (merge_messages (mkMessagesState []) (mkMessagesState init))).
    rewrite Hi. apply agent_walk_loop; assumption.
  - unfold functional_agent.
    assert (Hne : exists r rest, tcms ++ [final] = r :: rest)
      by (destruct tcms as [|x t]; [exists final, [] | exists x, (t ++ [final])];
          reflexivity).
    destruct Hne as (r & rest & E). rewrite E.
    cbn [callLlm stub_model].
    apply (functional_loop_run final tcms init rest r fuel (eq_sym E)); assumption.
Qed.

Lemma tool_loop_message_count_witness :
  (exists T,
     agent_invoke stub_model 25 ([ai_call_add] ++ [ai_seven]) (mkMessagesState [human_add]) =
       ("llmCall" :: concat (repeat ["toolNode"; "llmCall"] (length [ai_call_add])),
        Ok ([], mkMessagesState T)) /\
     length T = length [human_add] + (2 * length [ai_call_add] + 1) /\
     [human_add] `prefix_of` T /\ last T = Some ai_seven) /\
  (exists T,
     functional_agent stub_model 25 ([ai_call_add] ++ [ai_seven]) [human_add] =
       Some (Ok ([], T)) /\
     length T = length [human_add] + 2 * length [ai_call_add] /\ [human_add] `prefix_of` T).
Proof.
  apply tool_loop_message_count.
  - constructor; [|constructor].
    exists "", (Some "resp_1"), call_add_3_4. split; reflexivity.
  - reflexivity.
  - vm_compute. constructor; [set_solver | constructor; [set_solver | constructor]].
  - simpl. lia.
  - simpl. lia.
Defined.

(** C2 counterexample: with k = 0 (the model answers at once without a
    tool call) the agent appends one message after the human message, not
    1 + 2*0 + 1 = 2. *)
Lemma zero_cycles_append_one :
  agent_invoke stub_model 25 [ai_seven] (mkMessagesState [human_add]) =
    (["llmCall"], Ok ([], mkMessagesState [human_add; ai_seven])) /\
  length [human_add; ai_seven] - length [human_add] <> 1 + 2 * 0 + 1.
Proof. split; [reflexivity | simpl; lia]. Qed.

(* ================================================================= *)
(** * Further properties of the code *)

(* ----------------------------------------------------------------- *)
(** ** The merge of the messages channel *)

Lemma msg_ids_nodup_pos (l : list Message) j k x y i :
  NoDup (msg_ids l) -> l !! j = Some x -> l !! k = Some y ->
  msg_id x = Some i -> msg_id y = Some i -> j = k.
Proof.
  revert j k. induction l as [|m l IH]; intros j k Hnd Hj Hk Hx Hy; [discriminate|].
  change (m :: l) with ([m] ++ l) in Hnd. rewrite msg_ids_app, msg_ids_singleton in Hnd.
  destruct j as [|j], k as [|k]; simpl in Hj, Hk.
  - reflexivity.
  - injection Hj as ->. rewrite Hx in Hnd. apply NoDup_cons in Hnd as [Hni _].
    exfalso. apply Hni. apply list_elem_of_omap. exists y.
    split; [eapply list_elem_of_lookup_2; exact Hk | exact Hy].
  - injection Hk as ->. rewrite Hy in Hnd. apply NoDup_cons in Hnd as [Hni _].
    exfalso. apply Hni. apply list_elem_of_omap. exists x.
    split; [eapply list_elem_of_lookup_2; exact Hj | exact Hx].
  - f_equal. apply (IH j k); try assumption.
    destruct (msg_id m); [apply NoDup_cons in Hnd as [_ Hnd]|]; exact Hnd.
Qed.

Lemma merge_one_present (l : list Message) m i :
  NoDup (msg_ids l) -> m ∈ l -> msg_id m = Some i -> merge_one l m = l.
Proof.
  intros Hnd Hin Hi. unfold merge_one. rewrite Hi.
  apply list_elem_of_lookup_1 in Hin as [j Hj].
  destruct (last_index_of_id i l 0 None) as [k|] eqn:Hk.
  - apply last_index_of_id_found in Hk as [Hk|(_ & m0 & Hl & Hm0)]; [discriminate|].
    rewrite Nat.sub_0_r in Hl.
    assert (j = k) as <- by exact (msg_ids_nodup_pos l j k m m0 i Hnd Hj Hl Hi Hm0).
    apply list_insert_id. exact Hj.
  - apply last_index_of_id_none in Hk as [_ Hk]. exfalso. apply Hk.
    apply list_elem_of_omap. exists m.
    split; [eapply list_elem_of_lookup_2; exact Hj | exact Hi].
Qed.

(** X2: merging again messages that are already in the transcript, each
    with an id, leaves the transcript unchanged when its ids are pairwise
    distinct: a redelivered update is a no-op. *)
Theorem addMessages_redelivery_noop (l r : list Message) :
  NoDup (msg_ids l) -> (forall m, m ∈ r -> m ∈ l /\ is_Some (msg_id m)) ->
  addMessages l r = l.
Proof.
  intros Hnd Hr. unfold addMessages. induction r as [|m r IH]; [reflexivity|].
  simpl. destruct (Hr m ltac:(set_solver)) as [Hin [i Hi]].
  rewrite (merge_one_present l m i Hnd Hin Hi). apply IH.
  intros m' Hm'. apply Hr. set_solver.
Qed.

Lemma addMessages_redelivery_noop_witness :
  NoDup (msg_ids [human_m1; ai_call_add]) /\
  (forall m, m ∈ [ai_call_add] -> m ∈ [human_m1; ai_call_add] /\ is_Some (msg_id m)) /\
  addMessages [human_m1; ai_call_add] [ai_call_add] = [human_m1; ai_call_add].
Proof.
  assert (H1 : NoDup (msg_ids [human_m1; ai_call_add])).
  { vm_compute. constructor; [set_solver | constructor; [set_solver | constructor]]. }
  assert (H2 : forall m, m ∈ [ai_call_add] ->
                 m ∈ [human_m1; ai_call_add] /\ is_Some (msg_id m)).
  { intros m Hm. apply list_elem_of_singleton in Hm as ->.
    split; [set_solver | eexists; reflexivity]. }
  split; [exact H1 | split; [exact H2 |]].
  exact (addMessages_redelivery_noop _ _ H1 H2).
Defined.

(** X3: a message whose id is already used replaces the last message that
    carries this id, at its position: no message after that position has
    the id, and the transcript keeps its length. *)
Theorem merge_one_replaces_last (l : list Message) m i :
  msg_id m = Some i -> i ∈ msg_ids l ->
  exists k m0, l !! k = Some m0 /\ msg_id m0 = Some i /\
    (forall j m1, k < j -> l !! j = Some m1 -> msg_id m1 <> Some i) /\
    merge_one l m = <[k := m]> l /\ length (merge_one l m) = length l.
Proof.
  intros Hi Hin. unfold merge_one. rewrite Hi.
  destruct (last_index_of_id i l 0 None) as [k|] eqn:Hk.
  - pose proof (last_index_of_id_after i l 0 None k Hk) as Haft.
    apply last_index_of_id_found in Hk as [Hk|(_ & m0 & Hl & Hm0)]; [discriminate|].
    rewrite Nat.sub_0_r in Hl.
    exists k, m0. split; [exact Hl|]. split; [exact Hm0|]. split.
    + intros j m1 Hkj Hj Hm1. specialize (Haft j m1 Hj Hm1). lia.
    + split; [reflexivity | apply length_insert].
  - apply last_index_of_id_none in Hk as [_ Hk]. contradiction.
Qed.

Lemma merge_one_replaces_last_witness :
  msg_id ai_m1 = Some "m1" /\ "m1" ∈ msg_ids [human_m1] /\
  exists k m0, [human_m1] !! k = Some m0 /\ msg_id m0 = Some "m1" /\
    (forall j m1, k < j -> [human_m1] !! j = Some m1 -> msg_id m1 <> Some "m1") /\
    merge_one [human_m1] ai_m1 = <[k := ai_m1]> [human_m1] /\
    length (merge_one [human_m1] ai_m1) = length [human_m1].
Proof.
  assert (H1 : msg_id ai_m1 = Some "m1") by reflexivity.
  assert (H2 : "m1" ∈ msg_ids [human_m1]) by (vm_compute; set_solver).
  split; [exact H1 | split; [exact H2 |]].
  exact (merge_one_replaces_last [human_m1] ai_m1 "m1" H1 H2).
Defined.

(* ----------------------------------------------------------------- *)
(** ** The tools and the tool node of src/graph.ts *)

Lemma lookup_tool_cases n :
  lookup_tool n =
    if String.eqb n "add" then Some add
    else if String.eqb n "multiply" then Some multiply
    else if String.eqb n "divide" then Some divide else None.
Proof.
  unfold lookup_tool.
  change (reverse toolsByName) with
    [("divide", divide); ("multiply", multiply); ("add", add)].
  rewrite !list_to_map_cons, list_to_map_nil, !lookup_insert, lookup_empty.
  destruct (String.eqb_spec n "add") as [->|Ha];
    [repeat case_decide; congruence|].
  destruct (String.eqb_spec n "multiply") as [->|Hm];
    [repeat case_decide; congruence|].
  destruct (String.eqb_spec n "divide") as [->|Hd];
    [repeat case_decide; congruence|].
  repeat case_decide; congruence.
Qed.

Lemma lookup_tool_name n t : lookup_tool n = Some t -> tool_name t = n.
Proof.
  rewrite lookup_tool_cases.
  destruct (String.eqb_spec n "add") as [->|_]; [intros H; injection H as <-; reflexivity|].
  destruct (String.eqb_spec n "multiply") as [->|_]; [intros H; injection H as <-; reflexivity|].
  destruct (String.eqb_spec n "divide") as [->|_]; [intros H; injection H as <-; reflexivity|].
  discriminate.
Qed.

Lemma invoke_by_name_answer tc m :
  invoke_by_name tc = Ok m -> exists v, m = ToolMessage v None (tc_id tc) (tc_name tc).
Proof.
  unfold invoke_by_name, tool_invoke.
  destruct (lookup_tool (tc_name tc)) as [t|] eqn:Ht; [|discriminate].
  destruct (tool_schema t (tc_args tc)); [|discriminate].
  intros H. injection H as <-. rewrite (lookup_tool_name _ _ Ht). eexists; reflexivity.
Qed.

Lemma run_tool_calls_answers (tcs : list ToolCall) ms :
  run_tool_calls tcs = Ok ms ->
  Forall2 (fun tc m => exists v, m = ToolMessage v None (tc_id tc) (tc_name tc)) tcs ms.
Proof.
  revert ms. induction tcs as [|tc tcs IH]; intros ms H; simpl in H.
  - injection H as <-. constructor.
  - destruct (invoke_by_name tc) as [o|e] eqn:Ho; [|discriminate].
    destruct (run_tool_calls tcs) as [rs|e] eqn:Hr; [|discriminate].
    injection H as <-. constructor; [exact (invoke_by_name_answer tc o Ho) | exact (IH rs eq_refl)].
Qed.

(** X4: when the tool calls all succeed, there is exactly one result
    message per call, in the order of the calls, each a tool-role message
    without id that carries the call's id and the tool's name. *)
Theorem run_tool_calls_answers_each_call (tcs : list ToolCall) ms :
  run_tool_calls tcs = Ok ms ->
  length ms = length tcs /\
  Forall2 (fun tc m => exists v, m = ToolMessage v None (tc_id tc) (tc_name tc)) tcs ms.
Proof.
  intros H. pose proof (run_tool_calls_answers tcs ms H) as HF.
  split; [symmetry; exact (Forall2_length _ _ _ HF) | exact HF].
Qed.

Lemma run_tool_calls_answers_each_call_witness :
  run_tool_calls [call_add_3_4] = Ok [ToolMessage (JNum 7) None "call_1" "add"] /\
  length [ToolMessage (JNum 7) None "call_1" "add"] = length [call_add_3_4] /\
  Forall2 (fun tc m => exists v, m = ToolMessage v None (tc_id tc) (tc_name tc))
    [call_add_3_4] [ToolMessage (JNum 7) None "call_1" "add"].
Proof.
  assert (H : run_tool_calls [call_add_3_4] = Ok [ToolMessage (JNum 7) None "call_1" "add"])
    by reflexivity.
  split; [exact H | exact (run_tool_calls_answers_each_call _ _ H)].
Defined.

Lemma msg_ids_no_id (l : list Message) :
  Forall (fun m => msg_id m = None) l -> msg_ids l = [].
Proof. induction 1 as [|m l Hm _ IH]; [reflexivity|]. unfold msg_ids. simpl. rewrite Hm. exact IH. Qed.

Lemma addMessages_no_id (l r : list Message) :
  Forall (fun m => msg_id m = None) r -> addMessages l r = l ++ r.
Proof.
  intros H. apply addMessages_fresh. unfold fresh_for. rewrite (msg_ids_no_id r H).
  split; [constructor | set_solver].
Qed.

Lemma run_tool_calls_no_id (tcs : list ToolCall) ms :
  run_tool_calls tcs = Ok ms -> Forall (fun m => msg_id m = None) ms.
Proof.
  intros H. apply run_tool_calls_answers in H. induction H as [|tc m tcs ms [v ->] _ IH];
    constructor; [reflexivity | exact IH].
Qed.

Lemma toolNode_no_id (state u : MessagesState) :
  toolNode state = Ok u -> Forall (fun m => msg_id m = None) (messages u).
Proof.
  unfold toolNode. destruct (last (messages state)) as [m|];
    [|intros H; injection H as <-; constructor].
  case_decide as Hd; [intros H; injection H as <-; constructor|].
  destruct (run_tool_calls (tool_calls_of m)) as [ms|e] eqn:Hr; [|discriminate].
  intros H. injection H as <-. exact (run_tool_calls_no_id _ _ Hr).
Qed.

(** X5: a successful tool node's update is appended at the end of the
    transcript, never replacing a message; when the last message is
    ai-role, the update holds one tool-role message per pending call, in
    order, carrying that call's id. *)
Theorem toolNode_update_appended (state u : MessagesState) :
  toolNode state = Ok u ->
  merge_messages state u = mkMessagesState (messages state ++ messages u) /\
  (forall m, last (messages state) = Some m -> _getType m = TAI ->
     Forall2 (fun tc r => exists v, r = ToolMessage v None (tc_id tc) (tc_name tc))
       (tool_calls_of m) (messages u)).
Proof.
  intros H. split.
  - unfold merge_messages. rewrite (addMessages_no_id _ _ (toolNode_no_id state u H)).
    reflexivity.
  - intros m Hl Ht. unfold toolNode in H. rewrite Hl, decide_False in H by congruence.
    destruct (run_tool_calls (tool_calls_of m)) as [ms|e] eqn:Hr; [|discriminate].
    injection H as <-. exact (run_tool_calls_answers _ _ Hr).
Qed.

Lemma toolNode_update_appended_witness :
  toolNode (mkMessagesState [human_add; ai_call_add]) =
    Ok (mkMessagesState [ToolMessage (JNum 7) None "call_1" "add"]) /\
  merge_messages (mkMessagesState [human_add; ai_call_add])
    (mkMessagesState [ToolMessage (JNum 7) None "call_1" "add"]) =
    mkMessagesState ([human_add; ai_call_add] ++ [ToolMessage (JNum 7) None "call_1" "add"]) /\
  (forall m, last [human_add; ai_call_add] = Some m -> _getType m = TAI ->
     Forall2 (fun tc r => exists v, r = ToolMessage v None (tc_id tc) (tc_name tc))
       (tool_calls_of m) [ToolMessage (JNum 7) None "call_1" "add"]).
Proof.
  assert (H : toolNode (mkMessagesState [human_add; ai_call_add]) =
                Ok (mkMessagesState [ToolMessage (JNum 7) None "call_1" "add"]))
    by reflexivity.
  split; [exact H | exact (toolNode_update_appended _ _ H)].
Defined.

(** X6: the tool calls fail exactly when some call fails after all the
    calls before it succeeded, and the error is that call's: the first
    failing call decides the error and no later call matters. *)
Theorem run_tool_calls_first_error (tcs : list ToolCall) e :
  run_tool_calls tcs = Err e <->
  exists pre tc post, tcs = pre ++ tc :: post /\
    Forall (fun x => is_ok (invoke_by_name x) = true) pre /\
    invoke_by_name tc = Err e.
Proof.
  split.
  - induction tcs as [|x tcs IH]; simpl; [discriminate|].
    destruct (invoke_by_name x) as [o|e0] eqn:Hx.
    + destruct (run_tool_calls tcs) as [rs|e1]; [discriminate|].
      intros H. injection H as ->.
      destruct (IH eq_refl) as (pre & tc & post & -> & Hpre & Htc).
      exists (x :: pre), tc, post. split; [reflexivity|]. split; [|exact Htc].
      constructor; [rewrite Hx; reflexivity | exact Hpre].
    + intros H. injection H as ->. exists [], x, tcs.
      split; [reflexivity | split; [constructor | exact Hx]].
  - intros (pre & tc & post & -> & Hpre & Htc).
    induction Hpre as [|x pre Hx _ IH]; simpl.
    + rewrite Htc. reflexivity.
    + destruct (invoke_by_name x); [|discriminate]. rewrite IH. reflexivity.
Qed.

(** X7: a tool call succeeds exactly when it names one of add, multiply
    and divide and its arguments [a] and [b] are both numbers.  An
    unregistered name fails with a [TypeError]: "tool.invoke is not a
    function" for a member inherited from [Object.prototype], "Cannot read
    properties of undefined" for any other name.  A registered name with
    bad arguments fails with that tool's parsing error. *)
Theorem invoke_by_name_outcome (tc : ToolCall) :
  (is_ok (invoke_by_name tc) = true <->
     tc_name tc ∈ ["add"; "multiply"; "divide"] /\ is_Some (parse_ab (tc_args tc))) /\
  (tc_name tc ∉ ["add"; "multiply"; "divide"] -> tc_name tc ∈ object_prototype_members ->
     invoke_by_name tc = Err (TypeError "tool.invoke is not a function")) /\
  (tc_name tc ∉ ["add"; "multiply"; "divide"] -> tc_name tc ∉ object_prototype_members ->
     invoke_by_name tc =
       Err (TypeError "Cannot read properties of undefined (reading 'invoke')")) /\
  (tc_name tc ∈ ["add"; "multiply"; "divide"] -> parse_ab (tc_args tc) = None ->
     invoke_by_name tc = Err (ToolInputParsingException (tc_name tc))).
Proof.
  unfold invoke_by_name, tool_invoke. rewrite lookup_tool_cases.
  destruct tc as [id n args]. cbn [tc_name tc_args].
  rewrite !elem_of_cons, elem_of_nil.
  destruct (String.eqb_spec n "add") as [->|Ha];
  [|destruct (String.eqb_spec n "multiply") as [->|Hm];
  [|destruct (String.eqb_spec n "divide") as [->|Hd]]];
  cbn [tool_schema tool_name add multiply divide].
  4: { split_and!.
       - split; [discriminate | intros [[?|[?|[?|[]]]] _]; congruence].
       - intros _ Hp. unfold unregistered_error. rewrite decide_True by exact Hp. reflexivity.
       - intros _ Hp. unfold unregistered_error. rewrite decide_False by exact Hp. reflexivity.
       - intros [?|[?|[?|[]]]]; congruence. }
  all: destruct (parse_ab args) as [p|] eqn:Hp; split_and!;
    try (split; [intros _; split; [tauto | eexists; reflexivity] | reflexivity]);
    try (split; [discriminate | intros [_ [? Hs]]; discriminate]);
    try (intros Hn; exfalso; apply Hn; tauto);
    try (intros _ Hs; discriminate);
    try (intros _ _; reflexivity).
Qed.

(* ----------------------------------------------------------------- *)
(** ** The graph agent and the functional agent *)


Section AgentsAgree.
Context {W : Type}.
Variable model : W -> list Message -> result (W * Message).
Variable P : W -> Prop.
Hypothesis model_no_id :
  forall w p w' r, P w -> model w p = Ok (w', r) -> P w' /\ msg_id r = None.

End AgentsAgree.



(* ----------------------------------------------------------------- *)
(** ** Strings: [trim], [shouldAnswerQuestion] and [parseTopicList] *)

(** [String.append] is [simpl never] under stdpp: its two equations. *)
Lemma app_nil_l_s (b : string) : "" +:+ b = b.
Proof. reflexivity. Qed.

Lemma app_cons_s c (a b : string) : String c a +:+ b = String c (a +:+ b).
Proof. reflexivity. Qed.

Lemma append_assoc_s (a b c : string) : (a +:+ b) +:+ c = a +:+ (b +:+ c).
Proof. induction a as [|x a IH]; [reflexivity|]. rewrite !app_cons_s, IH. reflexivity. Qed.

Lemma append_nil_s (a : string) : a +:+ "" = a.
Proof. induction a as [|x a IH]; [reflexivity|]. rewrite app_cons_s, IH. reflexivity. Qed.

Lemma all_chars_app (p : Ascii.ascii -> bool) (a b : string) :
  all_chars p (a +:+ b) = all_chars p a && all_chars p b.
Proof.
  induction a as [|x a IH]; [reflexivity|]. rewrite app_cons_s. simpl. rewrite IH.
  apply andb_assoc.
Qed.

Lemma all_chars_impl (p q : Ascii.ascii -> bool) (s : string) :
  (forall c, p c = true -> q c = true) -> all_chars p s = true -> all_chars q s = true.
Proof.
  intros H. induction s as [|x s IH]; simpl; [auto|].
  rewrite !andb_true_iff. intros [? ?]; auto.
Qed.

Lemma all_chars_and (p q : Ascii.ascii -> bool) (s : string) :
  all_chars p s = true -> all_chars q s = true -> all_chars (fun c => p c && q c) s = true.
Proof.
  induction s as [|x s IH]; simpl; [auto|].
  rewrite !andb_true_iff. intros [? ?] [? ?]. auto.
Qed.

Lemma trim_start_lead (s : string) :
  trim_start s = "" \/ exists c s', trim_start s = String c s' /\ is_ws c = false.
Proof.
  induction s as [|c s IH]; simpl; [left; reflexivity|].
  destruct (is_ws c) eqn:Hc; [exact IH|]. right. exists c, s. split; [reflexivity | exact Hc].
Qed.

Lemma trim_end_nonws c (s : string) :
  is_ws c = false -> trim_end (String c s) = String c (trim_end s).
Proof. intros H. simpl. rewrite H. reflexivity. Qed.

Lemma trim_end_empty (s : string) : trim_end s = "" <-> all_chars is_ws s = true.
Proof.
  induction s as [|c s IH]; simpl; [split; reflexivity|].
  destruct (is_ws c); simpl; [|split; discriminate].
  destruct (String.eqb_spec (trim_end s) "") as [E|E].
  - split; [intros _; apply IH, E | reflexivity].
  - split; [discriminate | intros H; apply IH in H; contradiction].
Qed.

Lemma trim_end_idem (s : string) : trim_end (trim_end s) = trim_end s.
Proof.
  induction s as [|c s IH]; [reflexivity|]. simpl.
  destruct (is_ws c && (trim_end s =? "")%string) eqn:E; [reflexivity|].
  simpl. rewrite IH, E. reflexivity.
Qed.

Lemma trim_start_trim_end (s : string) :
  trim_start (trim_end (trim_start s)) = trim_end (trim_start s).
Proof.
  destruct (trim_start_lead s) as [E|(c & s' & E & Hc)]; rewrite E; [reflexivity|].
  rewrite trim_end_nonws by exact Hc. simpl. rewrite Hc. reflexivity.
Qed.

Lemma all_ws_trim_start (s : string) :
  all_chars is_ws (trim_start s) = all_chars is_ws s.
Proof.
  induction s as [|c s IH]; [reflexivity|]. simpl.
  destruct (is_ws c) eqn:Hc; simpl; [exact IH | rewrite ?Hc; reflexivity].
Qed.

Lemma trim_blank (s : string) : trim s = "" <-> all_chars is_ws s = true.
Proof. unfold trim. rewrite trim_end_empty, all_ws_trim_start. reflexivity. Qed.

Lemma trim_start_ws_prefix (a b : string) :
  all_chars is_ws a = true -> trim_start (a +:+ b) = trim_start b.
Proof.
  induction a as [|c a IH]; [reflexivity|]. rewrite app_cons_s. simpl.
  rewrite andb_true_iff. intros [Hc Ha]. rewrite Hc. exact (IH Ha).
Qed.

(** X9: [trim] is idempotent, and it yields the empty string exactly on
    the strings made of white space only. *)
Theorem trim_idempotent_blank (s : string) :
  trim (trim s) = trim s /\ (trim s = "" <-> all_chars is_ws s = true).
Proof.
  split; [|apply trim_blank].
  unfold trim. rewrite trim_start_trim_end, trim_end_idem. reflexivity.
Qed.

(** X10: [shouldAnswerQuestion] routes to the question exactly when no
    error is recorded (the [error] channel unset or empty) and the
    question is set and not made of white space only; an unset question
    counts as the empty one.  Otherwise it returns skip. *)
Theorem shouldAnswerQuestion_answer_iff (s : DevinState) :
  ((shouldAnswerQuestion s).1 = "answer" <->
   truthy (error s) = false /\ all_chars is_ws (default "" (userQuestion s)) = false) /\
  ((shouldAnswerQuestion s).1 <> "answer" -> (shouldAnswerQuestion s).1 = "skip").
Proof.
  split.
  2: { unfold shouldAnswerQuestion. destruct (truthy (error s)); [intros _; reflexivity|].
       destruct (truthy (userQuestion s) && _); simpl; [congruence | intros _; reflexivity]. }
  unfold shouldAnswerQuestion. destruct (truthy (error s)).
  - simpl. split; [discriminate | intros [H _]; discriminate].
  - destruct (userQuestion s) as [q|]; simpl; [|split; [discriminate | intros [_ H]; discriminate]].
    destruct (String.eqb_spec q "") as [->|Hq]; simpl;
      [split; [discriminate | intros [_ H]; discriminate]|].
    destruct (all_chars is_ws q) eqn:Ha.
    + assert (E : trim q = "") by (apply trim_blank; exact Ha).
      rewrite E. simpl. split; [discriminate | intros [_ H]; discriminate].
    + destruct (trim q) as [|c t] eqn:E.
      * apply trim_blank in E. congruence.
      * simpl. split; [intros _; split; reflexivity | reflexivity].
Qed.

(** [parseTopicList] helpers. *)
Lemma span_app (p : Ascii.ascii -> bool) (s a b : string) :
  span p s = (a, b) -> s = a +:+ b.
Proof.
  revert a b. induction s as [|c s IH]; intros a b; simpl.
  - intros H. injection H as <- <-. reflexivity.
  - destruct (p c).
    + destruct (span p s) as [a' b'] eqn:E. intros H. injection H as <- <-.
      rewrite app_cons_s. f_equal. apply IH. reflexivity.
    + intros H. injection H as <- <-. reflexivity.
Qed.

Lemma span_props (p : Ascii.ascii -> bool) (s a b : string) :
  span p s = (a, b) ->
  all_chars p a = true /\ match b with String c _ => p c = false | EmptyString => True end.
Proof.
  revert a b. induction s as [|c s IH]; intros a b; simpl.
  - intros H. injection H as <- <-. split; [reflexivity | exact I].
  - destruct (p c) eqn:Hc.
    + destruct (span p s) as [a' b'] eqn:E. intros H. injection H as <- <-.
      destruct (IH a' b' eq_refl) as [Ha Hb]. simpl. rewrite Hc, Ha. split; [reflexivity | exact Hb].
    + intros H. injection H as <- <-. split; [reflexivity | exact Hc].
Qed.

Lemma span_all (p : Ascii.ascii -> bool) (a b : string) :
  all_chars p a = true ->
  match b with String c _ => p c = false | EmptyString => True end ->
  span p (a +:+ b) = (a, b).
Proof.
  intros Ha Hb. revert Ha. induction a as [|c a IH]; intros Ha.
  - rewrite app_nil_l_s. destruct b as [|c b]; [reflexivity|]. simpl. rewrite Hb. reflexivity.
  - rewrite app_cons_s. simpl. simpl in Ha. apply andb_true_iff in Ha as [Hc Ha]. rewrite Hc, (IH Ha). reflexivity.
Qed.

Lemma substring_full (s : string) : String.substring 0 (String.length s) s = s.
Proof. induction s as [|c s IH]; simpl; congruence. Qed.

Lemma substring_n_0 n (s : string) : String.substring n 0 s = "".
Proof. revert s. induction n as [|n IH]; intros [|c s]; simpl; auto. Qed.

Lemma substring_suffix (ws : string) n :
  n <= String.length ws ->
  exists pre, ws = pre +:+ String.substring n (String.length ws - n) ws.
Proof.
  revert n. induction ws as [|c ws IH]; intros n Hn.
  - exists "". destruct n; reflexivity.
  - destruct n as [|n].
    + exists "". simpl. rewrite substring_full. reflexivity.
    + simpl in Hn. destruct (IH n ltac:(lia)) as [pre Hpre]. exists (String c pre).
      rewrite app_cons_s. simpl. f_equal. exact Hpre.
Qed.

Lemma backtrack_ws_suffix n (ws rest g : string) :
  n <= String.length ws -> backtrack_ws n ws rest = Some g ->
  (exists pre, ws +:+ rest = pre +:+ g) /\ dot_plus_to_end g = true.
Proof.
  induction n as [|n IH]; intros Hn H; cbn [backtrack_ws] in H; [discriminate|].
  revert H.
  destruct (dot_plus_to_end (String.substring (S n) (String.length ws - S n) ws +:+ rest))
    eqn:Hd; intros H.
  - injection H as <-. split; [|exact Hd].
    destruct (substring_suffix ws (S n) Hn) as [pre Hpre]. exists pre.
    rewrite <- append_assoc_s, <- Hpre. reflexivity.
  - apply IH; [lia | exact H].
Qed.

Lemma topic_match_suffix (line g : string) :
  topic_match line = Some g -> (exists pre, line = pre +:+ g) /\ dot_plus_to_end g = true.
Proof.
  unfold topic_match.
  destruct (span is_ws line) as [w0 s1] eqn:E0.
  destruct s1 as [|c s2]; [discriminate|].
  destruct (Ascii.nat_of_ascii c =? 45); [|discriminate].
  destruct (span is_ws s2) as [w1 s3] eqn:E1.
  destruct (span is_digit_or_dot s3) as [d s4] eqn:E2.
  destruct (span is_ws s4) as [w2 rest] eqn:E3.
  destruct ((0 <? String.length w1) && (0 <? String.length d)); [|discriminate].
  intros H. destruct (backtrack_ws_suffix _ w2 rest g (le_n _) H) as [[pre Hpre] Hd].
  split; [|exact Hd].
  apply span_app in E0, E1, E2, E3.
  exists (w0 +:+ String c (w1 +:+ d +:+ pre)).
  rewrite E0, E1, E2, E3, Hpre. rewrite !append_assoc_s, app_cons_s, ?append_assoc_s.
  reflexivity.
Qed.

Lemma suffix_last (pre g p : string) c :
  pre +:+ g = p +:+ String c "" -> g <> "" -> exists g', g = g' +:+ String c "".
Proof.
  revert p. induction pre as [|x pre IH]; intros p H Hg.
  - exists p. exact H.
  - destruct p as [|y p]; rewrite !app_cons_s in H; rewrite ?app_nil_l_s in H.
    + injection H as _ H. destruct pre; [exfalso; exact (Hg H) | discriminate].
    + injection H as _ H. exact (IH p H Hg).
Qed.

Lemma topic_match_cr (p : string) :
  topic_match (p +:+ String (Ascii.ascii_of_nat 13) "") = None.
Proof.
  destruct (topic_match _) as [g|] eqn:E; [|reflexivity]. exfalso.
  destruct (topic_match_suffix _ _ E) as [[pre Hpre] Hd].
  unfold dot_plus_to_end in Hd. apply andb_true_iff in Hd as [Hlen Hall].
  assert (Hg : g <> "") by (intros Hg0; subst g; discriminate Hlen).
  destruct (suffix_last pre g p _ (eq_sym Hpre) Hg) as [g' ->].
  rewrite all_chars_app in Hall. apply andb_true_iff in Hall as [_ Hall].
  discriminate Hall.
Qed.

Lemma omap_all_none {A B} (f : A -> option B) (l : list A) :
  (forall x, x ∈ l -> f x = None) -> omap f l = [].
Proof.
  induction l as [|x l IH]; intros H; [reflexivity|]. simpl.
  rewrite (H x ltac:(apply elem_of_cons; left; reflexivity)).
  apply IH. intros y Hy. apply H. apply elem_of_cons. right. exact Hy.
Qed.

(** X11: a text whose lines all end with a carriage return (CRLF line
    ends, as [split('\n')] leaves the CR) yields no topic: [(.+)$] cannot
    end after the CR, since [.] does not match it and [$] without the [m]
    flag only matches at the end of the line. *)
Theorem parseTopicList_crlf (text : string) :
  (forall line, line ∈ split_lines text ->
     line = "" \/ exists p, line = p +:+ String (Ascii.ascii_of_nat 13) "") ->
  parseTopicList text = [].
Proof.
  intros H. unfold parseTopicList. apply omap_all_none. intros line Hl.
  destruct (H line Hl) as [->|[p ->]]; [reflexivity|]. rewrite topic_match_cr. reflexivity.
Qed.

Lemma parseTopicList_crlf_witness : parseTopicList crlf_topics = [].
Proof.
  apply parseTopicList_crlf. intros line Hl.
  change (split_lines crlf_topics) with
    ["- 1 Overview" +:+ String (Ascii.ascii_of_nat 13) "";
     "- 2 Setup" +:+ String (Ascii.ascii_of_nat 13) ""; ""] in Hl.
  apply elem_of_cons in Hl as [->|Hl]; [right; eexists; reflexivity|].
  apply elem_of_cons in Hl as [->|Hl]; [right; eexists; reflexivity|].
  apply elem_of_cons in Hl as [->|Hl]; [left; reflexivity|].
  apply elem_of_nil in Hl. contradiction.
Defined.

Lemma split_lines_no_lf (s : string) :
  all_chars (fun c => negb (is_line_terminator c)) s = true -> split_lines s = [s].
Proof.
  induction s as [|c s IH]; intros H; [reflexivity|].
  cbn [all_chars] in H. apply andb_true_iff in H as [Hc H].
  cbn [split_lines]. rewrite (IH H). unfold is_line_terminator in Hc.
  destruct (Ascii.nat_of_ascii c =? 10) eqn:E; [rewrite ?E in Hc; discriminate | reflexivity].
Qed.

Lemma digit_not_ws c : is_digit_or_dot c = true -> is_ws c = false.
Proof. destruct c as [[] [] [] [] [] [] [] []]; vm_compute; congruence. Qed.

Lemma digit_not_lt c : is_digit_or_dot c = true -> negb (is_line_terminator c) = true.
Proof. destruct c as [[] [] [] [] [] [] [] []]; vm_compute; congruence. Qed.

Lemma topic_match_unfold (w0 s2 line : string) :
  span is_ws line = (w0, String (Ascii.ascii_of_nat 45) s2) ->
  topic_match line =
    let '(w1, s3) := span is_ws s2 in
    let '(d, s4) := span is_digit_or_dot s3 in
    let '(w2, rest) := span is_ws s4 in
    if (0 <? String.length w1) && (0 <? String.length d)
    then backtrack_ws (String.length w2) w2 rest else None.
Proof. intros H. unfold topic_match. rewrite H. reflexivity. Qed.

Lemma backtrack_ws_step n (ws rest : string) :
  backtrack_ws (S n) ws rest =
    if dot_plus_to_end (String.substring (S n) (String.length ws - S n) ws +:+ rest)
    then Some (String.substring (S n) (String.length ws - S n) ws +:+ rest)
    else backtrack_ws n ws rest.
Proof. reflexivity. Qed.

Lemma substring_last (q : Ascii.ascii -> bool) (s : string) k :
  String.length s = S k -> all_chars q s = true ->
  exists c, String.substring k 1 s = String c "" /\ q c = true.
Proof.
  revert k. induction s as [|c s IH]; intros k Hl Ha; [discriminate|].
  cbn [all_chars] in Ha. apply andb_true_iff in Ha as [Hc Ha].
  simpl in Hl. injection Hl as Hl.
  destruct s as [|c' s'].
  - subst k. exists c. split; [reflexivity | exact Hc].
  - destruct k as [|k]; [discriminate|]. cbn [String.substring].
    apply IH; [exact Hl | exact Ha].
Qed.

(** X12: a bullet line [ind - num title] gives the single topic [trim
    title]: [ind] is white space, [num] a run of digits and dots, [title]
    any non-empty rest of the line.  A title of white space only gives the
    empty topic: the backtracking [\s+] leaves its last character to
    [(.+)], which [trim] then removes. *)
Theorem parseTopicList_bullet (ind num title : string) :
  all_chars (fun c => is_ws c && negb (is_line_terminator c)) ind = true ->
  num <> "" -> all_chars is_digit_or_dot num = true ->
  title <> "" -> all_chars (fun c => negb (is_line_terminator c)) title = true ->
  parseTopicList (ind +:+ "- " +:+ num +:+ " " +:+ title) = [trim title].
Proof.
  intros Hind Hnum Hdig Ht Htl.
  destruct num as [|c0 num']; [congruence|].
  assert (Hc0 : is_digit_or_dot c0 = true)
    by (cbn [all_chars] in Hdig; apply andb_true_iff in Hdig; tauto).
  set (X := String c0 num' +:+ " " +:+ title).
  set (line := ind +:+ "- " +:+ X).
  assert (Hline : all_chars (fun c => negb (is_line_terminator c)) line = true).
  { unfold line, X. rewrite !all_chars_app.
    rewrite (all_chars_impl _ _ ind (fun c H => proj2 (proj1 (andb_true_iff _ _) H)) Hind).
    rewrite (all_chars_impl _ _ _ digit_not_lt Hdig), Htl. reflexivity. }
  destruct (span is_ws title) as [tw tr] eqn:Etw.
  pose proof (span_app _ _ _ _ Etw) as Htitle.
  destruct (span_props _ _ _ _ Etw) as [Htw Htr].
  assert (E0 : span is_ws line = (ind, String (Ascii.ascii_of_nat 45) (String (Ascii.ascii_of_nat 32) X))).
  { exact (span_all is_ws ind ("- " +:+ X)
             (all_chars_impl _ _ ind (fun c H => proj1 (proj1 (andb_true_iff _ _) H)) Hind)
             eq_refl). }
  assert (E1 : span is_ws (String (Ascii.ascii_of_nat 32) X) = (" ", X)).
  { exact (span_all is_ws " " X eq_refl (digit_not_ws c0 Hc0)). }
  assert (E2 : span is_digit_or_dot X = (String c0 num', " " +:+ title)).
  { exact (span_all is_digit_or_dot (String c0 num') (" " +:+ title) Hdig eq_refl). }
  assert (E3 : span is_ws (" " +:+ title) = (String (Ascii.ascii_of_nat 32) tw, tr)).
  { change (" " +:+ title) with (String (Ascii.ascii_of_nat 32) title). simpl. rewrite Etw. reflexivity. }
  assert (Htm : topic_match line = backtrack_ws (S (String.length tw)) (String (Ascii.ascii_of_nat 32) tw) tr).
  { rewrite (topic_match_unfold ind (String (Ascii.ascii_of_nat 32) X) line E0).
    rewrite E1. cbv beta iota zeta. rewrite E2. cbv beta iota zeta. rewrite E3.
    cbv beta iota zeta. reflexivity. }
  assert (Hlt : all_chars (fun c => negb (is_line_terminator c)) tw = true /\
                all_chars (fun c => negb (is_line_terminator c)) tr = true).
  { rewrite Htitle, all_chars_app in Htl. apply andb_true_iff in Htl. exact Htl. }
  assert (Hg : exists g, topic_match line = Some g /\ trim g = trim title).
  { rewrite Htm. destruct tr as [|c1 tr'].
    - rewrite append_nil_s in Htitle. subst title.
      destruct tw as [|c2 tw']; [congruence|].
      destruct (substring_last (fun c => is_ws c && negb (is_line_terminator c))
                  (String c2 tw') (String.length tw') eq_refl
                  (all_chars_and _ _ _ Htw (proj1 Hlt))) as (c & Hs & Hc).
      apply andb_true_iff in Hc as [Hcw Hcl].
      change (String.length (String c2 tw')) with (S (String.length tw')).
      rewrite backtrack_ws_step.
      replace (String.length (String (Ascii.ascii_of_nat 32) (String c2 tw')) - S (S (String.length tw')))
        with 0 by (simpl; lia).
      rewrite substring_n_0. cbv beta iota.
      change (dot_plus_to_end ("" +:+ "")) with false. cbv iota.
      rewrite backtrack_ws_step.
      replace (String.length (String (Ascii.ascii_of_nat 32) (String c2 tw')) - S (String.length tw'))
        with 1 by (simpl; lia).
      change (String.substring (S (String.length tw')) 1 (String (Ascii.ascii_of_nat 32) (String c2 tw')))
        with (String.substring (String.length tw') 1 (String c2 tw')).
      rewrite Hs, append_nil_s.
      unfold dot_plus_to_end. cbn [all_chars String.length]. rewrite Hcl.
      cbv beta iota. eexists. split; [reflexivity|].
      rewrite (proj2 (trim_blank (String c2 tw')) Htw).
      unfold trim. cbn [trim_start]. rewrite Hcw. reflexivity.
    - simpl in Htr. rewrite backtrack_ws_step.
      replace (String.length (String (Ascii.ascii_of_nat 32) tw) - S (String.length tw)) with 0 by (simpl; lia).
      rewrite substring_n_0, app_nil_l_s.
      unfold dot_plus_to_end at 1. cbn [all_chars String.length].
      cbn [all_chars] in Hlt. rewrite (proj2 Hlt). cbv beta iota.
      eexists. split; [reflexivity|].
      unfold trim. rewrite Htitle, trim_start_ws_prefix by exact Htw.
      cbn [trim_start]. rewrite Htr. reflexivity. }
  destruct Hg as (g & Hg & Htg).
  unfold parseTopicList. fold line. rewrite (split_lines_no_lf line Hline).
  change (omap (fun line0 => trim <$> topic_match line0) [line])
    with (match trim <$> topic_match line with Some t => [t] | None => [] end).
  rewrite Hg. simpl. rewrite Htg. reflexivity.
Qed.

Lemma parseTopicList_bullet_witness :
  parseTopicList ("  " +:+ "- " +:+ "1.2" +:+ " " +:+ "  Setup guide ") = ["Setup guide"].
Proof.
  apply (parseTopicList_bullet "  " "1.2" "  Setup guide "); try reflexivity; discriminate.
Defined.

(* ----------------------------------------------------------------- *)
(** ** The tools and nodes of src/unnamed/part_000 *)

Lemma qmin_le_l a b : (qmin a b <= a)%Q.
Proof.
  unfold qmin. destruct (Qle_bool a b) eqn:E; [apply Qle_refl|].
  apply Qlt_le_weak, Qnot_le_lt. intros H. apply Qle_bool_iff in H. congruence.
Qed.

Lemma qmin_le_r a b : (qmin a b <= b)%Q.
Proof. unfold qmin. destruct (Qle_bool a b) eqn:E; [apply Qle_bool_iff; exact E | apply Qle_refl]. Qed.

Lemma qmax_ge_l a b : (a <= qmax a b)%Q.
Proof. unfold qmax. destruct (Qle_bool a b) eqn:E; [apply Qle_bool_iff; exact E | apply Qle_refl]. Qed.

Lemma qmax_ge_r a b : (b <= qmax a b)%Q.
Proof.
  unfold qmax. destruct (Qle_bool a b) eqn:E; [apply Qle_refl|].
  apply Qlt_le_weak, Qnot_le_lt. intros H. apply Qle_bool_iff in H. congruence.
Qed.

Lemma fold_qmin_spec (xs : list Q) : forall x,
  fold_left qmin xs x ∈ x :: xs /\
  forall y, y ∈ x :: xs -> (fold_left qmin xs x <= y)%Q.
Proof.
  induction xs as [|z xs IH]; intros x; simpl.
  - split; [set_solver|]. intros y Hy. apply elem_of_cons in Hy as [->|Hy];
      [apply Qle_refl | apply elem_of_nil in Hy; contradiction].
  - destruct (IH (qmin x z)) as [Hin Hle]. split.
    + apply elem_of_cons in Hin as [->|Hin]; [|set_solver].
      unfold qmin. destruct (Qle_bool x z); set_solver.
    + intros y Hy. apply elem_of_cons in Hy as [->|Hy].
      * apply (Qle_trans _ (qmin x z)); [apply Hle; set_solver | apply qmin_le_l].
      * apply elem_of_cons in Hy as [->|Hy].
        -- apply (Qle_trans _ (qmin x z)); [apply Hle; set_solver | apply qmin_le_r].
        -- apply Hle. set_solver.
Qed.

Lemma fold_qmax_spec (xs : list Q) : forall x,
  fold_left qmax xs x ∈ x :: xs /\
  forall y, y ∈ x :: xs -> (y <= fold_left qmax xs x)%Q.
Proof.
  induction xs as [|z xs IH]; intros x; simpl.
  - split; [set_solver|]. intros y Hy. apply elem_of_cons in Hy as [->|Hy];
      [apply Qle_refl | apply elem_of_nil in Hy; contradiction].
  - destruct (IH (qmax x z)) as [Hin Hge]. split.
    + apply elem_of_cons in Hin as [->|Hin]; [|set_solver].
      unfold qmax. destruct (Qle_bool x z); set_solver.
    + intros y Hy. apply elem_of_cons in Hy as [->|Hy].
      * apply (Qle_trans _ (qmax x z)); [apply qmax_ge_l | apply Hge; set_solver].
      * apply elem_of_cons in Hy as [->|Hy].
        -- apply (Qle_trans _ (qmax x z)); [apply qmax_ge_r | apply Hge; set_solver].
        -- apply Hge. set_solver.
Qed.

(** X13: [analyzeData] on an empty array reports a sum and a count of 0
    and [null] for the average, the maximum and the minimum (the [NaN]
    and infinities that [JSON.stringify] writes as [null]); on a
    non-empty array it reports the count of its elements, and a maximum
    and a minimum that are elements of the array bounding all of them. *)
Theorem analyzeData_summary (data : list Q) :
  (data = [] ->
   analyzeData data = [("sum", JNum 0%Q); ("avg", JNull); ("max", JNull); ("min", JNull);
                       ("count", JNum 0%Q)]) /\
  (data <> [] -> exists sum avg mn mx,
     analyzeData data =
       [("sum", sum); ("avg", avg); ("max", JNum mx); ("min", JNum mn);
        ("count", JNum (inject_Z (Z.of_nat (length data))))] /\
     mn ∈ data /\ mx ∈ data /\ (forall y, y ∈ data -> mn <= y <= mx)%Q).
Proof.
  split; [intros ->; reflexivity|].
  intros Hne. destruct data as [|x xs]; [congruence|].
  destruct (fold_qmin_spec xs x) as [Hmin_in Hmin_le].
  destruct (fold_qmax_spec xs x) as [Hmax_in Hmax_ge].
  eexists _, _, (fold_left qmin xs x), (fold_left qmax xs x).
  split; [reflexivity|]. split; [exact Hmin_in|]. split; [exact Hmax_in|].
  intros y Hy; split; [apply Hmin_le | apply Hmax_ge]; exact Hy.
Qed.

Lemma ascii_upper_idem c : ascii_upper (ascii_upper c) = ascii_upper c.
Proof. destruct c as [[] [] [] [] [] [] [] []]; vm_compute; reflexivity. Qed.

Lemma ascii_lower_idem c : ascii_lower (ascii_lower c) = ascii_lower c.
Proof. destruct c as [[] [] [] [] [] [] [] []]; vm_compute; reflexivity. Qed.

Lemma ascii_lower_upper c : ascii_lower (ascii_upper c) = ascii_lower c.
Proof. destruct c as [[] [] [] [] [] [] [] []]; vm_compute; reflexivity. Qed.

Lemma ascii_upper_lower c : ascii_upper (ascii_lower c) = ascii_upper c.
Proof. destruct c as [[] [] [] [] [] [] [] []]; vm_compute; reflexivity. Qed.

Lemma string_map_map f g (s : string) :
  (forall c, f (g c) = f c) -> string_map f (string_map g s) = string_map f s.
Proof. intros H. induction s as [|c s IH]; simpl; [reflexivity|]. rewrite H, IH. reflexivity. Qed.

Lemma string_map_length f (s : string) : String.length (string_map f s) = String.length s.
Proof. induction s as [|c s IH]; simpl; congruence. Qed.

Lemma length_append_s (a b : string) :
  String.length (a +:+ b) = String.length a + String.length b.
Proof. induction a as [|c a IH]; [reflexivity|]. rewrite app_cons_s. simpl. rewrite IH. reflexivity. Qed.

Lemma string_reverse_app (a b : string) :
  string_reverse (a +:+ b) = string_reverse b +:+ string_reverse a.
Proof.
  induction a as [|c a IH].
  - rewrite app_nil_l_s. simpl. rewrite append_nil_s. reflexivity.
  - rewrite app_cons_s. simpl. rewrite IH, append_assoc_s. reflexivity.
Qed.

Lemma string_reverse_involutive (s : string) : string_reverse (string_reverse s) = s.
Proof.
  induction s as [|c s IH]; [reflexivity|]. simpl.
  rewrite string_reverse_app, IH. reflexivity.
Qed.

Lemma string_reverse_length (s : string) :
  String.length (string_reverse s) = String.length s.
Proof.
  induction s as [|c s IH]; [reflexivity|]. simpl.
  rewrite length_append_s, IH. simpl. lia.
Qed.

(** X14: [processText]: reversing twice gives the text back; applying
    [uppercase] or [lowercase] after either of them is the same as
    applying it directly (so each is idempotent); and every operation but
    [length] keeps the length of the text; for a text of ASCII
    characters, on which [toUpperCase] and [toLowerCase] map the letters
    a-z and A-Z only, one character to one. *)
Theorem processText_round_trips (text : string) :
  all_chars (fun c => Ascii.nat_of_ascii c <? 128) text = true ->
  processText (processText text Reverse) Reverse = text /\
  (forall op op', op ∈ [Uppercase; Lowercase] -> op' ∈ [Uppercase; Lowercase] ->
     processText (processText text op') op = processText text op) /\
  (forall op, op <> Length -> String.length (processText text op) = String.length text).
Proof.
  intros _. split; [apply string_reverse_involutive|]. split.
  - intros op op' Hop Hop'.
    apply elem_of_cons in Hop as [->|Hop]; [|apply list_elem_of_singleton in Hop as ->];
    (apply elem_of_cons in Hop' as [->|Hop']; [|apply list_elem_of_singleton in Hop' as ->]);
    simpl; apply string_map_map;
    first [exact ascii_upper_idem | exact ascii_upper_lower | exact ascii_lower_upper
          | exact ascii_lower_idem].
  - intros [] Hop; simpl; [apply string_map_length | apply string_map_length
                          | apply string_reverse_length | congruence].
Qed.

Lemma processText_round_trips_witness :
  all_chars (fun c => Ascii.nat_of_ascii c <? 128) "Hello World" = true /\
  processText (processText "Hello World" Reverse) Reverse = "Hello World" /\
  (forall op op', op ∈ [Uppercase; Lowercase] -> op' ∈ [Uppercase; Lowercase] ->
     processText (processText "Hello World" op') op = processText "Hello World" op) /\
  (forall op, op <> Length ->
     String.length (processText "Hello World" op) = String.length "Hello World").
Proof.
  assert (H : all_chars (fun c => Ascii.nat_of_ascii c <? 128) "Hello World" = true)
    by reflexivity.
  split; [exact H | exact (processText_round_trips "Hello World" H)].
Defined.

Lemma last_cons_some {A} (x : A) (l : list A) : exists y, last (x :: l) = Some y.
Proof.
  revert x. induction l as [|z l IH]; intros x; [exists x; reflexivity|].
  destruct (IH z) as [y Hy]. exists y. exact Hy.
Qed.

Lemma tool_loop_ok (invoke_tool : ToolCall -> result string) tcs outs :
  Forall2 (fun tc o => invoke_tool tc = Ok o) tcs outs ->
  forall acc, tool_loop invoke_tool acc tcs = Ok (default acc (last outs)).
Proof.
  induction 1 as [|tc o tcs outs Ho _ IH]; intros acc; [reflexivity|].
  simpl. rewrite Ho. simpl. rewrite IH.
  destruct outs as [|s outs]; [reflexivity|].
  change (last (o :: s :: outs)) with (last (s :: outs)).
  destruct (last_cons_some s outs) as [y ->]. reflexivity.
Qed.

Lemma tool_loop_err (invoke_tool : ToolCall -> result string) tcs tc e :
  tc ∈ tcs -> invoke_tool tc = Err e ->
  forall acc, exists e', tool_loop invoke_tool acc tcs = Err e'.
Proof.
  induction tcs as [|tc' tcs IH]; intros Hin He acc;
    [apply elem_of_nil in Hin; contradiction|].
  simpl. destruct (invoke_tool tc') as [o|e'] eqn:Ho.
  - simpl. apply elem_of_cons in Hin as [->|Hin]; [congruence|]. apply IH; assumption.
  - exists e'. reflexivity.
Qed.

(** X15: a processing node ([processMathNode], [processTextNode],
    [processDataNode]) whose model response requests tools runs each
    call in order and reports the output of the last one as its
    [response] (the empty string when no tool is requested), with
    [processed] set and its [path]; if any requested call fails, the
    node fails. *)
Theorem process_node_response {W} (model : W -> list Message -> result (W * Message))
    (invoke_tool : ToolCall -> result string) system path w st w' resp :
  model w [SystemMessage system None; HumanMessage (input st) None] = Ok (w', resp) ->
  (forall outs, Forall2 (fun tc o => invoke_tool tc = Ok o) (tool_calls_of resp) outs ->
     process_node model invoke_tool system path w st
       = Ok (w', mkProcessUpdate true path (default "" (last outs)))) /\
  (forall tc e, tc ∈ tool_calls_of resp -> invoke_tool tc = Err e ->
     exists e', process_node model invoke_tool system path w st = Err e').
Proof.
  intros Hm. unfold process_node. rewrite Hm. simpl. split.
  - intros outs Hf. case_decide as Hd.
    + rewrite (tool_loop_ok _ _ _ Hf ""). reflexivity.
    + assert (E : tool_calls_of resp = [])
        by (destruct (tool_calls_of resp); [reflexivity | simpl in Hd; lia]).
      rewrite E in Hf. inversion Hf; subst. reflexivity.
  - intros tc e Hin He. case_decide as Hd.
    + destruct (tool_loop_err _ _ _ _ Hin He "") as [e' He']. rewrite He'.
      exists e'. reflexivity.
    + destruct (tool_calls_of resp); [apply elem_of_nil in Hin; contradiction | simpl in Hd; lia].
Qed.

Lemma process_node_response_witness :
  processTextNode (fun (_ : unit) _ => Ok (tt, ai_call_text)) processText_invoke tt
    complex_state0 = Ok (tt, mkProcessUpdate true "text" "cba").
Proof.
  unfold processTextNode.
  refine (proj1 (process_node_response (fun (_ : unit) _ => Ok (tt, ai_call_text))
                   processText_invoke _ "text" tt complex_state0 tt ai_call_text eq_refl)
            ["HELLO WORLD"; "cba"] _).
  constructor; [vm_compute; reflexivity|]. constructor; [vm_compute; reflexivity|].
  constructor.
Defined.

Lemma routeByCategory_dispatch (st : ComplexState) :
  (routeByCategory st).1 <> "enrichData" <->
  exists c, category st = JStr c /\ c ∈ ["math"; "text"; "data"].
Proof.
  split.
  - unfold routeByCategory. intros H. repeat case_match; subst; simpl in H;
      try congruence; eexists; (split; [first [reflexivity | eassumption] | set_solver]).
  - intros (c & Hc & Hin). unfold routeByCategory. rewrite Hc.
    apply elem_of_cons in Hin as [->|Hin]; [simpl; intros Heq; discriminate Heq|].
    apply elem_of_cons in Hin as [->|Hin]; [simpl; intros Heq; discriminate Heq|].
    apply list_elem_of_singleton in Hin as ->. simpl. intros Heq. discriminate Heq.
Qed.

Lemma unknown_not_routed : "unknown" ∉ ["math"; "text"; "data"].
Proof.
  intros Hin. apply elem_of_cons in Hin as [H|Hin]; [discriminate H|].
  apply elem_of_cons in Hin as [H|Hin]; [discriminate H|].
  apply list_elem_of_singleton in Hin. discriminate Hin.
Qed.

(** X16: after [classifyInputNode], [routeByCategory] sends the input to
    a processing node exactly when the model's reply parsed as an object
    whose [category] property is the string math, text or data; any
    other reply (not JSON, [null], a primitive, another or a missing
    category) goes to [enrichData]. *)
Theorem classify_then_route (st : ComplexState) (parsed : option Parsed) :
  category st = (classifyInputNode_update parsed).1 ->
  ((routeByCategory st).1 <> "enrichData" <->
   exists o c, parsed = Some (PObject o) /\ obj_get o "category" = Some (JStr c) /\
               c ∈ ["math"; "text"; "data"]).
Proof.
  intros Hc. rewrite routeByCategory_dispatch, Hc. split.
  - intros (c & Hcat & Hin). destruct parsed as [[o| |v]|]; simpl in Hcat.
    + destruct (obj_get o "category") as [v|] eqn:Eo; simpl in Hcat; unfold js_or in Hcat.
      * destruct (js_truthy v) eqn:Ht.
        -- subst v. exists o, c. split; [reflexivity|]. split; [exact Eo | exact Hin].
        -- injection Hcat as <-. exfalso. exact (unknown_not_routed Hin).
      * injection Hcat as <-. exfalso. exact (unknown_not_routed Hin).
    + injection Hcat as <-. exfalso. exact (unknown_not_routed Hin).
    + unfold js_or in Hcat. simpl in Hcat. injection Hcat as <-. exfalso.
      exact (unknown_not_routed Hin).
    + injection Hcat as <-. exfalso. exact (unknown_not_routed Hin).
  - intros (o & c & -> & Ho & Hin). exists c. split; [|exact Hin].
    simpl. rewrite Ho. unfold js_or.
    apply elem_of_cons in Hin as [->|Hin]; [reflexivity|].
    apply elem_of_cons in Hin as [->|Hin]; [reflexivity|].
    apply list_elem_of_singleton in Hin as ->. reflexivity.
Qed.

Lemma classify_then_route_witness :
  (routeByCategory (mkComplexState "2+3" (JStr "math") (Some (9#10))
                      None None None None None None)).1 <> "enrichData" <->
  exists o c, Some (PObject [("category", JStr "math"); ("confidence", JNum (9#10))])
                = Some (PObject o) /\
              obj_get o "category" = Some (JStr c) /\ c ∈ ["math"; "text"; "data"].
Proof. apply classify_then_route. reflexivity. Defined.

(* ----------------------------------------------------------------- *)
(** ** A run of the document analysis graph *)

Lemma shouldAnswerQuestion_label (s : DevinState) :
  (shouldAnswerQuestion s).1 =
  if truthy (error s) then "skip"
  else if all_chars is_ws (default "" (userQuestion s)) then "skip" else "answer".
Proof.
  unfold shouldAnswerQuestion. destruct (truthy (error s)); [reflexivity|].
  destruct (userQuestion s) as [q|]; simpl; [|reflexivity].
  destruct (all_chars is_ws q) eqn:Hw.
  - apply trim_blank in Hw. rewrite Hw. destruct (negb (String.eqb q "")); reflexivity.
  - assert (Ht : trim q <> "") by (intros Ht; apply trim_blank in Ht; congruence).
    assert (Hq : q <> "") by (intros ->; discriminate).
    apply String.eqb_neq in Hq. rewrite Hq. simpl.
    destruct (trim q) as [|c t]; [congruence|reflexivity].
Qed.

Ltac doc_unfold :=
  unfold runDocumentAnalysis, invoke, doc_graph, fetchWikiStructureNode,
    fetchWikiContentsNode, answerQuestionNode, analyzeInsightsNode, generateSummaryNode,
    readWikiStructure, readWikiContents, askQuestion.

Ltac doc_cbn :=
  cbn -[shouldAnswerQuestion parseTopicList];
  try rewrite shouldAnswerQuestion_label;
  cbn -[shouldAnswerQuestion parseTopicList].

(** Steps a run, splitting on the results of the tool calls and of the
    summary model, and on whether the question is blank. *)
Ltac doc_cases callTool summary_model :=
  repeat (doc_cbn;
    match goal with
    | |- context [callTool ?a "read_wiki_structure" ?c] =>
        let E := fresh "E" in
        destruct (callTool a "read_wiki_structure" c) as [? [[|? ?]|[[|[?|] ?]|]]] eqn:E
    | |- context [callTool ?a "read_wiki_contents" ?c] =>
        let E := fresh "E" in destruct (callTool a "read_wiki_contents" c) as [? [[|? ?]|?]] eqn:E
    | |- context [callTool ?a "ask_question" ?c] =>
        let E := fresh "E" in destruct (callTool a "ask_question" c) as [? [[|? ?]|?]] eqn:E
    | |- context [summary_model ?a ?b] =>
        let E := fresh "E" in destruct (summary_model a b) as [? [?|?]] eqn:E
    | |- context [if all_chars ?p ?q then _ else _] =>
        let E := fresh "Q" in destruct (all_chars p q) eqn:E
    end).

Section DocRuns.
Context {W : Type}.
Variable callTool : W -> string -> list (string * option string) ->
                    W * (string + option (list McpContent)).
Variable summary_model : W -> DocState -> W * (string + string).

(** X18: with a step bound of at least five, a run of the document
    analysis graph never fails, whatever the server and the model answer.
    It keeps the repository name and the question ([userQuestion || ""]),
    and either stops after fetchWikiStructure with a truthy error, the
    structure [null] and no summary, or goes through fetchWikiContents and
    analyzeInsights, optionally answerQuestion, and generateSummary, ending
    with insights and a summary. *)
Theorem runDocumentAnalysis_outcome bound (w : W) repo uq :
  5 <= bound ->
  exists log w' s,
    runDocumentAnalysis callTool summary_model bound w repo uq = (log, Ok (w', s)) /\
    ds_repoName s = Some repo /\ ds_userQuestion s = Some (default "" uq) /\
    ((log = ["fetchWikiStructure"] /\ truthy (ds_error s) = true /\
      ds_wikiStructure s = Some WSNull /\ ds_summary s = None) \/
     ((log = ["fetchWikiStructure"; "fetchWikiContents"; "analyzeInsights"; "generateSummary"] \/
       log = ["fetchWikiStructure"; "fetchWikiContents"; "analyzeInsights"; "answerQuestion";
              "generateSummary"]) /\
      (exists ins, ds_insights s = Some ins) /\ (exists sm, ds_summary s = Some sm))).
Proof.
  intros Hb. destruct bound as [|[|[|[|[|n]]]]]; try lia.
  doc_unfold. doc_cases callTool summary_model.
  all: eexists _, _, _; split; [reflexivity|].
  all: cbn; split; [reflexivity|]; split; [reflexivity|].
  all: first [left; repeat split; reflexivity
             | right; split; [first [left; reflexivity | right; reflexivity]
                             | split; eexists; reflexivity]].
Qed.

(** X19: with a step bound of at least five, answerQuestion runs exactly
    when the structure call neither throws with a non-empty message nor
    returns no content, the contents call does not throw with a non-empty
    message, and the question is not blank. *)
Theorem runDocumentAnalysis_answers_iff bound (w : W) repo uq w1 r1 w2 r2 :
  5 <= bound ->
  callTool w "read_wiki_structure" [("repoName", Some repo)] = (w1, r1) ->
  callTool w1 "read_wiki_contents" [("repoName", Some repo)] = (w2, r2) ->
  ("answerQuestion" ∈ (runDocumentAnalysis callTool summary_model bound w repo uq).1 <->
   r1 <> inr None /\ (forall e, r1 = inl e -> e = "") /\ (forall e, r2 = inl e -> e = "") /\
   all_chars is_ws (default "" uq) = false).
Proof.
  intros Hb H1 H2. destruct bound as [|[|[|[|[|n]]]]]; try lia.
  doc_unfold. doc_cbn. rewrite H1.
  destruct r1 as [[|? ?]|[[|[?|] ?]|]]; doc_cbn; try rewrite H2;
    destruct r2 as [[|? ?]|?]; doc_cases callTool summary_model.
  all: split; [intros Hin; apply list_elem_of_In in Hin; simpl in Hin
              | intros (Hr1 & Hr2 & Hr3 & Hr4); apply list_elem_of_In; simpl].
  all: [> repeat destruct Hin as [Hin|Hin]; try discriminate Hin; try contradiction;
          repeat split; try assumption; try discriminate;
          try (intros ? He; first [discriminate He | injection He; intros; subst; reflexivity]) ..].
  all: first [solve [repeat (first [left; reflexivity | right])]
             | exfalso; first [congruence | discriminate (Hr2 _ eq_refl)
                              | discriminate (Hr3 _ eq_refl)]].
Qed.

(** X20: when the structure is read but the contents call throws with a
    non-empty message, the run goes fetchWikiStructure, fetchWikiContents,
    analyzeInsights, generateSummary; it ends with that error, the
    contents [""], no answer, and insights of the structure's topic count,
    length 0 and [hasWiki] false. *)
Theorem runDocumentAnalysis_contents_error bound (w : W) repo uq w1 cs w2 msg :
  5 <= bound ->
  callTool w "read_wiki_structure" [("repoName", Some repo)] = (w1, inr (Some cs)) ->
  callTool w1 "read_wiki_contents" [("repoName", Some repo)] = (w2, inl msg) ->
  msg <> "" ->
  exists w3 s,
    runDocumentAnalysis callTool summary_model bound w repo uq =
      (["fetchWikiStructure"; "fetchWikiContents"; "analyzeInsights"; "generateSummary"],
       Ok (w3, s)) /\
    ds_error s = Some msg /\ ds_wikiContents s = Some "" /\ ds_answer s = None /\
    ds_insights s = Some (match cs with McpText t :: _ => length (parseTopicList t) | _ => 0 end,
                          0, false).
Proof.
  intros Hb H1 H2 Hm. destruct bound as [|[|[|[|[|n]]]]]; try lia.
  destruct msg as [|c m]; [congruence|].
  doc_unfold. doc_cbn. rewrite H1. destruct cs as [|[?|] ?]; doc_cbn; rewrite H2;
    doc_cases callTool summary_model.
  all: eexists _, _; split; [reflexivity|]; repeat split; reflexivity.
Qed.

(** X21: when both the structure and the contents are read, the run ends
    with the structure built from the first content item ([{raw, topics}]
    for a text item, the item itself otherwise, or [[]]), the contents
    [String] of the first item, and insights of the number of parsed
    topics, the contents' length and whether it is non-empty. *)
Theorem runDocumentAnalysis_insights bound (w : W) repo uq w1 cs w2 c :
  5 <= bound ->
  callTool w "read_wiki_structure" [("repoName", Some repo)] = (w1, inr (Some cs)) ->
  callTool w1 "read_wiki_contents" [("repoName", Some repo)] = (w2, inr c) ->
  exists log w3 s,
    runDocumentAnalysis callTool summary_model bound w repo uq = (log, Ok (w3, s)) /\
    ds_wikiStructure s = Some (match cs with
                               | [] => WSEmpty
                               | McpText t :: _ => WSTopics t (parseTopicList t)
                               | McpItem :: _ => WSItem
                               end) /\
    ds_wikiContents s = Some (content_text c) /\
    ds_insights s = Some (match cs with McpText t :: _ => length (parseTopicList t) | _ => 0 end,
                          String.length (content_text c), 0 <? String.length (content_text c)).
Proof.
  intros Hb H1 H2. destruct bound as [|[|[|[|[|n]]]]]; try lia.
  doc_unfold. doc_cbn. rewrite H1. destruct cs as [|[?|] ?]; doc_cbn; rewrite H2;
    doc_cases callTool summary_model.
  all: eexists _, _, _; split; [reflexivity|]; repeat split; reflexivity.
Qed.

(** X22: a structure call that throws with an empty message is not
    detected by checkError: the run goes on through fetchWikiContents and
    analyzeInsights with the structure [null] and a topic count of 0. *)
Theorem runDocumentAnalysis_empty_error_continues bound (w : W) repo uq w1 :
  5 <= bound ->
  callTool w "read_wiki_structure" [("repoName", Some repo)] = (w1, inl "") ->
  exists log w3 s,
    runDocumentAnalysis callTool summary_model bound w repo uq =
      ("fetchWikiStructure" :: "fetchWikiContents" :: "analyzeInsights" :: log, Ok (w3, s)) /\
    ds_wikiStructure s = Some WSNull /\ exists d h, ds_insights s = Some (0, d, h).
Proof.
  intros Hb H1. destruct bound as [|[|[|[|[|n]]]]]; try lia.
  doc_unfold. doc_cbn. rewrite H1. doc_cases callTool summary_model.
  all: eexists _, _, _; split; [reflexivity|]; split; [reflexivity|]; eexists _, _; reflexivity.
Qed.

(** X23: when the structure call throws with a non-empty message, or
    returns no content (so that reading [topics] throws), the run stops
    after fetchWikiStructure, in one step, with the structure [null], that
    error, and nothing else set beside the inputs. *)
Theorem runDocumentAnalysis_structure_error bound (w : W) repo uq w1 r1 e :
  1 <= bound ->
  callTool w "read_wiki_structure" [("repoName", Some repo)] = (w1, r1) ->
  (r1 = inl e /\ e <> "") \/ (r1 = inr None /\ e = topics_of_undefined) ->
  runDocumentAnalysis callTool summary_model bound w repo uq =
    (["fetchWikiStructure"],
     Ok (w1, mkDocState (Some repo) (Some (default "" uq)) (Some WSNull) None None None None
               (Some e))).
Proof.
  intros Hb H1 Hr. destruct bound as [|n]; [lia|].
  destruct Hr as [[-> He]|[-> ->]]; [destruct e as [|c e]; [congruence|]|];
    doc_unfold; doc_cbn; rewrite H1; doc_cbn; reflexivity.
Qed.

End DocRuns.

(** Witnesses of X18 to X23, on a server answering each tool with a fixed
    result. *)
Lemma runDocumentAnalysis_outcome_witness :
  5 <= 5 /\
  exists log w' s,
    runDocumentAnalysis (mcp_stub structure_ok contents_ok answer_ok) summary_stub 5 []
      demo_repo (Some "What is it?") = (log, Ok (w', s)) /\
    ds_repoName s = Some demo_repo /\
    ds_userQuestion s = Some (default "" (Some "What is it?")) /\
    ((log = ["fetchWikiStructure"] /\ truthy (ds_error s) = true /\
      ds_wikiStructure s = Some WSNull /\ ds_summary s = None) \/
     ((log = ["fetchWikiStructure"; "fetchWikiContents"; "analyzeInsights"; "generateSummary"] \/
       log = ["fetchWikiStructure"; "fetchWikiContents"; "analyzeInsights"; "answerQuestion";
              "generateSummary"]) /\
      (exists ins, ds_insights s = Some ins) /\ (exists sm, ds_summary s = Some sm))).
Proof.
  split; [lia|]. apply (runDocumentAnalysis_outcome _ _ 5). lia.
Defined.

Lemma runDocumentAnalysis_answers_iff_witness :
  5 <= 5 /\
  mcp_stub structure_ok contents_ok answer_ok [] "read_wiki_structure"
    [("repoName", Some demo_repo)] = (["read_wiki_structure"], structure_ok) /\
  mcp_stub structure_ok contents_ok answer_ok ["read_wiki_structure"] "read_wiki_contents"
    [("repoName", Some demo_repo)] =
    (["read_wiki_structure"; "read_wiki_contents"], contents_ok) /\
  ("answerQuestion" ∈ (runDocumentAnalysis (mcp_stub structure_ok contents_ok answer_ok)
                          summary_stub 5 [] demo_repo (Some "What is it?")).1 <->
   structure_ok <> inr None /\ (forall e, structure_ok = inl e -> e = "") /\
   (forall e, contents_ok = inl e -> e = "") /\
   all_chars is_ws (default "" (Some "What is it?")) = false).
Proof.
  split; [lia|]. split; [reflexivity|]. split; [reflexivity|].
  apply (runDocumentAnalysis_answers_iff _ _ 5 [] demo_repo (Some "What is it?")
           ["read_wiki_structure"] structure_ok
           ["read_wiki_structure"; "read_wiki_contents"] contents_ok); [lia | reflexivity..].
Defined.

Lemma runDocumentAnalysis_contents_error_witness :
  5 <= 5 /\
  mcp_stub structure_ok (inl "connection closed") answer_ok [] "read_wiki_structure"
    [("repoName", Some demo_repo)] = (["read_wiki_structure"], inr (Some [McpText lf_topics])) /\
  mcp_stub structure_ok (inl "connection closed") answer_ok ["read_wiki_structure"]
    "read_wiki_contents" [("repoName", Some demo_repo)] =
    (["read_wiki_structure"; "read_wiki_contents"], inl "connection closed") /\
  "connection closed" <> "" /\
  exists w3 s,
    runDocumentAnalysis (mcp_stub structure_ok (inl "connection closed") answer_ok)
      summary_stub 5 [] demo_repo (Some "What is it?") =
      (["fetchWikiStructure"; "fetchWikiContents"; "analyzeInsights"; "generateSummary"],
       Ok (w3, s)) /\
    ds_error s = Some "connection closed" /\ ds_wikiContents s = Some "" /\
    ds_answer s = None /\ ds_insights s = Some (length (parseTopicList lf_topics), 0, false).
Proof.
  split; [lia|]. split; [reflexivity|]. split; [reflexivity|]. split; [discriminate|].
  apply (runDocumentAnalysis_contents_error _ _ 5 [] demo_repo (Some "What is it?")
           ["read_wiki_structure"] [McpText lf_topics]
           ["read_wiki_structure"; "read_wiki_contents"] "connection closed");
    [lia | reflexivity | reflexivity | discriminate].
Defined.

Lemma runDocumentAnalysis_insights_witness :
  5 <= 5 /\
  mcp_stub structure_ok (inr None) answer_ok [] "read_wiki_structure"
    [("repoName", Some demo_repo)] = (["read_wiki_structure"], inr (Some [McpText lf_topics])) /\
  mcp_stub structure_ok (inr None) answer_ok ["read_wiki_structure"]
    "read_wiki_contents" [("repoName", Some demo_repo)] =
    (["read_wiki_structure"; "read_wiki_contents"], inr None) /\
  exists log w3 s,
    runDocumentAnalysis (mcp_stub structure_ok (inr None) answer_ok)
      summary_stub 5 [] demo_repo None = (log, Ok (w3, s)) /\
    ds_wikiStructure s = Some (WSTopics lf_topics (parseTopicList lf_topics)) /\
    ds_wikiContents s = Some (content_text None) /\
    ds_insights s = Some (length (parseTopicList lf_topics),
                          String.length (content_text None),
                          0 <? String.length (content_text None)).
Proof.
  split; [lia|]. split; [reflexivity|]. split; [reflexivity|].
  apply (runDocumentAnalysis_insights _ _ 5 [] demo_repo None
           ["read_wiki_structure"] [McpText lf_topics]
           ["read_wiki_structure"; "read_wiki_contents"] None);
    [lia | reflexivity | reflexivity].
Defined.

Lemma runDocumentAnalysis_empty_error_continues_witness :
  5 <= 5 /\
  mcp_stub (inl "") contents_ok answer_ok [] "read_wiki_structure"
    [("repoName", Some demo_repo)] = (["read_wiki_structure"], inl "") /\
  exists log w3 s,
    runDocumentAnalysis (mcp_stub (inl "") contents_ok answer_ok) summary_stub 5 [] demo_repo
      (Some "What is it?") =
      ("fetchWikiStructure" :: "fetchWikiContents" :: "analyzeInsights" :: log, Ok (w3, s)) /\
    ds_wikiStructure s = Some WSNull /\ exists d h, ds_insights s = Some (0, d, h).
Proof.
  split; [lia|]. split; [reflexivity|].
  apply (runDocumentAnalysis_empty_error_continues _ _ 5 [] demo_repo (Some "What is it?")
           ["read_wiki_structure"]); [lia | reflexivity].
Defined.

Lemma runDocumentAnalysis_structure_error_witness :
  1 <= 5 /\
  mcp_stub (inr None) contents_ok answer_ok [] "read_wiki_structure"
    [("repoName", Some demo_repo)] = (["read_wiki_structure"], inr None) /\
  runDocumentAnalysis (mcp_stub (inr None) contents_ok answer_ok) summary_stub 5 [] demo_repo None =
    (["fetchWikiStructure"],
     Ok (["read_wiki_structure"],
         mkDocState (Some demo_repo) (Some (default "" None)) (Some WSNull) None None None None
           (Some topics_of_undefined))).
Proof.
  split; [lia|]. split; [reflexivity|].
  apply (runDocumentAnalysis_structure_error _ _ 5 [] demo_repo None ["read_wiki_structure"]
           (inr None) topics_of_undefined); [lia | reflexivity | right; split; reflexivity].
Defined.
